(** * demo.py: index provisioning, vector search and teardown

    A shallow embedding of [src/demo.py].  The script is one function,
    [main], that talks to three collaborators: the document store
    (pymongo), the embedding service (openai) and the operator (input).
    A run is modelled as a function of the answers those collaborators
    give ([World]); it produces the sequence of calls and printed lines
    ([Event]) and the way the function was left ([Completion]). *)

From Stdlib Require Import List String Ascii ZArith Bool Lia Floats.
Import ListNotations.
Open Scope string_scope.

(** ** Strings *)

(** The line feed of the Python literals written [\n]. *)
Definition nl : string := String (ascii_of_nat 10) EmptyString.

(** [needle in hay] on Python strings. *)
Fixpoint contains (needle hay : string) : bool :=
  if prefix needle hay then true
  else match hay with
       | EmptyString => false
       | String _ rest => contains needle rest
       end.

Definition lower_char (c : ascii) : ascii :=
  let n := nat_of_ascii c in
  if andb (Nat.leb 65 n) (Nat.leb n 90) then ascii_of_nat (n + 32) else c.

(** [s.lower()], on the ASCII letters. *)
Fixpoint lower (s : string) : string :=
  match s with
  | EmptyString => EmptyString
  | String c rest => String (lower_char c) (lower rest)
  end.

(** ** Configuration (lines 19-24) *)

Definition ATLAS_CONNECTION_STRING : string :=
  "mongodb://localhost:27017/?retryWrites=true&w=majority&directConnection=true".
Definition DB_NAME : string := "sample_mflix".
Definition COLLECTION_NAME : string := "embedded_movies".
Definition INDEX_NAME : string := "vector_index_plot".
Definition VECTOR_FIELD_PATH : string := "plot_embedding".
Definition VECTOR_DIMENSIONS : Z := 1536.

(** ** Exceptions *)

(** The classes the handlers of [main] tell apart.  [OtherException] is any
    other subclass of [Exception] (KeyError, IndexError, EOFError, the
    openai errors); [NotAnException] is a [BaseException] outside
    [Exception] (KeyboardInterrupt, SystemExit), which [except Exception]
    lets through. *)
Inductive ExnClass : Type :=
| OperationFailure
| ConfigurationError
| ConnectionFailure
| OtherException
| NotAnException.

(** An exception with its [str(e)]. *)
Record Exn : Type := mkExn { exn_class : ExnClass; exn_str : string }.

Definition is_OperationFailure (e : Exn) : bool :=
  match exn_class e with OperationFailure => true | _ => false end.
Definition is_ConfigurationError (e : Exn) : bool :=
  match exn_class e with ConfigurationError => true | _ => false end.
Definition is_ConnectionFailure (e : Exn) : bool :=
  match exn_class e with ConnectionFailure => true | _ => false end.
Definition is_Exception (e : Exn) : bool :=
  match exn_class e with NotAnException => false | _ => true end.

(** What a call into a collaborator does: it returns or it raises. *)
Inductive Result (A : Type) : Type :=
| Returns (a : A)
| Raises (e : Exn).
Arguments Returns {A} a.
Arguments Raises {A} e.

(** ** Data exchanged with the collaborators *)

(** A document of [list_search_indexes]; [status] is [None] when the
    document has no such key. *)
Record IndexDoc : Type := mkIndexDoc { name : string; status : option string }.

(** The index definition of lines 66-79. *)
Record VectorField : Type := mkVectorField
  { field_type : string; path : string; numDimensions : Z; similarity : string }.
Record SearchIndexModel : Type := mkSearchIndexModel
  { model_name : string; model_type : string; fields : list VectorField }.

(** A document of the aggregation; a field is [None] when the document
    lacks the key. *)
Record Doc : Type := mkDoc
  { title : option string; plot : option string; score : option float }.

(** The two stages of the pipeline of lines 132-149. *)
Inductive Projection : Type :=
| Include
| Meta (field : string).

Inductive Stage : Type :=
| VectorSearch (index path : string) (queryVector : list float)
               (numCandidates limit : Z)
| Project (spec : list (string * Projection)).

Record AzureOpenAI : Type := mkAzureOpenAI
  { api_key : string; api_version : string; azure_endpoint : string }.

Record MongoClient : Type := mkMongoClient { uri : string }.

(** ** The collaborators' answers

    One field per call site of [main], in the order of the source; the
    poll of line 93 is executed once per iteration of the loop and has one
    answer per iteration. *)
Record World : Type := mkWorld
  { MongoClient_new : Result unit;                        (* line 57 *)
    ping : Result unit;                                   (* line 58 *)
    list_first : Result (list IndexDoc);                  (* line 85 *)
    create_search_index : Result unit;                    (* line 89 *)
    list_polls : list (Result (list IndexDoc));           (* line 93 *)
    input_search : Result string;                         (* line 116 *)
    AzureOpenAI_new : Result unit;                        (* line 121 *)
    embeddings_create : Result (list (list float));       (* line 37 *)
    aggregate : Result (list Doc);                        (* line 150 *)
    list_last : Result (list IndexDoc);                   (* line 162 *)
    input_drop : Result string;                           (* line 165 *)
    drop_search_index : Result unit }.                    (* line 168 *)

(** ** Events of a run *)

Inductive Event : Type :=
| Print (line : string)
| PrintResult (title : string) (score : float) (plot : string)
| NewMongoClient (uri : string)
| Ping
| ListSearchIndexes (name : option string) (answer : Result (list IndexDoc))
| CreateSearchIndex (model : SearchIndexModel)
| Sleep (seconds : Z)
| Input (prompt : string)
| NewAzureOpenAI (client : AzureOpenAI)
| EmbeddingsCreate (input : list string) (model : string)
| Aggregate (pipeline : list Stage)
| DropSearchIndex (name : string)
| Close.

(** ** Control flow

    How a block of statements is left. [Running] stands for a poll loop
    that has used all the answers of [list_polls] and is still looping. *)
Inductive Completion (A : Type) : Type :=
| Normal (a : A)
| Returned
| Raised (e : Exn)
| Running.
Arguments Normal {A} a.
Arguments Returned {A}.
Arguments Raised {A} e.
Arguments Running {A}.

(** The one local variable read after the body: [mongo_client]. *)
Record Locals : Type := mkLocals { mongo_client : option MongoClient }.

Record Out (A : Type) : Type := mkOut
  { events : list Event; locals : Locals; completion : Completion A }.
Arguments mkOut {A} events locals completion.
Arguments events {A} o.
Arguments locals {A} o.
Arguments completion {A} o.

Definition M (A : Type) : Type := Locals -> Out A.

Definition ret {A} (a : A) : M A := fun l => mkOut [] l (Normal a).

Definition bind {A B} (m : M A) (f : A -> M B) : M B := fun l =>
  let o := m l in
  match completion o with
  | Normal a =>
      let o' := f a (locals o) in
      mkOut (events o ++ events o') (locals o') (completion o')
  | Returned => mkOut (events o) (locals o) Returned
  | Raised e => mkOut (events o) (locals o) (Raised e)
  | Running => mkOut (events o) (locals o) Running
  end.

Declare Scope py_scope.
Delimit Scope py_scope with py.
Notation "x <- m ;; k" := (bind m (fun x => k))
  (at level 100, m at next level, right associativity) : py_scope.
Notation "m ;; k" := (bind m (fun _ => k))
  (at level 100, right associativity) : py_scope.
Open Scope py_scope.

Definition emit (ev : Event) : M unit := fun l => mkOut [ev] l (Normal tt).
Definition print (line : string) : M unit := emit (Print line).
Definition raise {A} (e : Exn) : M A := fun l => mkOut [] l (Raised e).
Definition return_ {A} : M A := fun l => mkOut [] l Returned.
Definition running {A} : M A := fun l => mkOut [] l Running.
Definition pass : M unit := ret tt.

(** A call: the event, then the collaborator's answer. *)
Definition answer {A} (r : Result A) : M A :=
  match r with
  | Returns a => ret a
  | Raises e => raise e
  end.
Definition call {A} (ev : Event) (r : Result A) : M A := emit ev ;; answer r.

Definition set_mongo_client (c : MongoClient) : M unit :=
  fun _ => mkOut [] (mkLocals (Some c)) (Normal tt).

(** [try: m except ...: h]; [h e] is [None] when no clause matches [e]. *)
Definition try_except {A} (m : M A) (h : Exn -> option (M A)) : M A := fun l =>
  let o := m l in
  match completion o with
  | Raised e =>
      match h e with
      | Some k =>
          let o' := k (locals o) in
          mkOut (events o ++ events o') (locals o') (completion o')
      | None => o
      end
  | _ => o
  end.

(** [try: m finally: f]: [f] runs however [m] is left; a loop that is still
    running has not left [m]. *)
Definition try_finally {A} (m : M A) (f : M unit) : M A := fun l =>
  let o := m l in
  match completion o with
  | Running => o
  | c =>
      let o' := f (locals o) in
      mkOut (events o ++ events o') (locals o')
        match completion o' with
        | Normal _ => c
        | Returned => Returned
        | Raised e => Raised e
        | Running => Running
        end
  end.

Definition get_mongo_client : M (option MongoClient) :=
  fun l => mkOut [] l (Normal (mongo_client l)).

(** ** The program *)

Definition ValueError (msg : string) : Exn := mkExn OtherException msg.
Definition IndexError : Exn := mkExn OtherException "list index out of range".
Definition KeyError (key : string) : Exn := mkExn OtherException ("'" ++ key ++ "'").

(** [str(x)] of a value that may be [None]. *)
Definition str (x : option string) : string :=
  match x with Some s => s | None => "None" end.

(** [x == s] for a value [x] that may be [None]. *)
Definition equals (x : option string) (s : string) : bool :=
  match x with Some y => String.eqb y s | None => false end.

(** [d.get(key, default)]. *)
Definition get_default (x : option string) (default : string) : string :=
  match x with Some s => s | None => default end.

(** Truth value of the result of [generate_embedding]: [None] and the empty
    list are false. *)
Definition truthy (v : option (list float)) : bool :=
  match v with Some (_ :: _) => true | _ => false end.

Definition deployment_name : string := "text-embedding-ada-002".

(** Lines 66-79. *)
Definition search_index_model : SearchIndexModel :=
  mkSearchIndexModel INDEX_NAME "vectorSearch"
    [mkVectorField "vector" VECTOR_FIELD_PATH VECTOR_DIMENSIONS "cosine"].

Definition query_text : string :=
  "A tale of redemption and friendship in a prison.".

(** Lines 132-149. *)
Definition pipeline (query_vector : list float) : list Stage :=
  [ VectorSearch INDEX_NAME VECTOR_FIELD_PATH query_vector 150 5;
    Project [("title", Include); ("plot", Include);
             ("score", Meta "vectorSearchScore")] ].

Definition prompt_search : string :=
  nl ++ "[PROMPT] Do you want to perform a vector search? (yes/no): ".
Definition prompt_drop : string :=
  nl ++ "[PROMPT] Do you want to drop the index '" ++ INDEX_NAME
     ++ "'? (yes/no): ".

Section Run.

Variable w : World.

(** Lines 26-41. *)
Definition generate_embedding (text : string) (client : AzureOpenAI)
  : M (option (list float)) :=
  print ("[INFO] Generating embedding for query: '" ++ text ++ "'") ;;
  try_except
    (if String.eqb deployment_name "" then
       raise (ValueError
                "[FATAL] AZURE_OAI_DEPLOYMENT environment variable not set.")
     else
       data <- call (EmbeddingsCreate [text] deployment_name)
                    (embeddings_create w) ;;
       match data with
       | [] => raise IndexError
       | first :: _ => ret (Some first)
       end)
    (fun e =>
       if is_Exception e then
         Some (print ("[ERROR] Failed to generate embedding: " ++ exn_str e) ;;
               ret None)
       else None).

(** Lines 92-106, the [while True] loop; one answer of [list_polls] per
    iteration.  [break] leaves the loop normally, [return] leaves [main]. *)
Fixpoint monitor (polls : list (Result (list IndexDoc))) : M unit :=
  match polls with
  | [] => running
  | r :: rest =>
      index_status <- call (ListSearchIndexes (Some INDEX_NAME) r) r ;;
      match index_status with
      | [] =>
          print "[INFO] Waiting for index creation to initialize..." ;;
          emit (Sleep 10) ;;
          monitor rest
      | first :: _ =>
          let status := status first in
          print ("[INFO] Current index status: " ++ str status) ;;
          if equals status "READY" then
            print "[SUCCESS] Index is built and ready for use. ✅"
          else if equals status "FAILED" then
            (print "[ERROR] Index creation failed. Check the Atlas UI for details." ;;
             return_)
          else
            (emit (Sleep 10) ;;
             monitor rest)
      end
  end.

(** Lines 82-113, step 3: check for the index, create it and monitor the
    build. *)
Definition ensure_index : M unit :=
  print (nl ++ "[ACTION] Checking/Creating index '" ++ INDEX_NAME ++ "'...") ;;
  try_except
    (listed <- call (ListSearchIndexes None (list_first w)) (list_first w) ;;
     let existing_indexes := map name listed in
     if existsb (String.eqb INDEX_NAME) existing_indexes then
       print ("[WARN] Index '" ++ INDEX_NAME
                ++ "' already exists. Skipping creation.")
     else
       (call (CreateSearchIndex search_index_model) (create_search_index w) ;;
        print ("[SUCCESS] Index creation command sent for '" ++ INDEX_NAME
                 ++ "'. Monitoring status...") ;;
        monitor (list_polls w)))
    (fun e =>
       if is_OperationFailure e then
         Some (if contains "already exists" (exn_str e) then
                 print ("[WARN] Index '" ++ INDEX_NAME ++ "' already exists.")
               else
                 (print ("[ERROR] An error occurred: " ++ exn_str e) ;;
                  return_))
       else None).

(** Lines 152-155. *)
Fixpoint print_results (results : list Doc) : M unit :=
  match results with
  | [] => pass
  | doc :: rest =>
      match title doc with
      | None => raise (KeyError "title")
      | Some t =>
          match score doc with
          | None => raise (KeyError "score")
          | Some s =>
              match plot doc with
              | None => raise (KeyError "plot")
              | Some p =>
                  emit (PrintResult t s (substring 0 150 p)) ;;
                  print_results rest
              end
          end
      end
  end.

(** Lines 116-158, step 4. *)
Definition vector_search : M unit :=
  typed <- call (Input prompt_search) (input_search w) ;;
  let user_input := lower typed in
  if String.eqb user_input "yes" then
    print (nl ++ "[ACTION] Initializing Azure OpenAI client...") ;;
    try_except
      (let client := mkAzureOpenAI "" "2023-05-15" "https://.openai.azure.com" in
       call (NewAzureOpenAI client) (AzureOpenAI_new w) ;;
       query_vector <- generate_embedding query_text client ;;
       if truthy query_vector then
         print "[INFO] Executing $vectorSearch aggregation..." ;;
         results <- call (Aggregate (pipeline (match query_vector with
                                               | Some v => v
                                               | None => []
                                               end)))
                         (aggregate w) ;;
         print (nl ++ "--- Search Results ---") ;;
         print_results results
       else pass)
      (fun e =>
         if is_Exception e then
           Some (print ("[FATAL] An error occurred during the search operation: "
                          ++ exn_str e))
         else None)
  else pass.

(** Lines 162-163. *)
Fixpoint print_indexes (listed : list IndexDoc) : M unit :=
  match listed with
  | [] => pass
  | idx :: rest =>
      print ("  - Name: " ++ name idx ++ ", Status: "
               ++ get_default (status idx) "N/A") ;;
      print_indexes rest
  end.

(** Lines 161-171, step 5. *)
Definition list_and_drop : M unit :=
  print (nl ++ "[INFO] Current search indexes for '" ++ COLLECTION_NAME ++ "':") ;;
  listed <- call (ListSearchIndexes None (list_last w)) (list_last w) ;;
  print_indexes listed ;;
  typed <- call (Input prompt_drop) (input_drop w) ;;
  let user_input := lower typed in
  if String.eqb user_input "yes" then
    print (nl ++ "[ACTION] Dropping index '" ++ INDEX_NAME ++ "'...") ;;
    call (DropSearchIndex INDEX_NAME) (drop_search_index w) ;;
    print ("[SUCCESS] Index '" ++ INDEX_NAME ++ "' dropped.")
  else
    print (nl ++ "[INFO] Skipping index drop.").

(** Lines 51-171, the body of the outer [try], for a connection string
    [conn]. *)
Definition body (conn : string) : M unit :=
  print (nl ++ "[INFO] Connecting to MongoDB Atlas cluster...") ;;
  if orb (String.eqb conn "") (contains "<username>" conn) then
    print "[FATAL] Please set your ATLAS_CONNECTION_STRING in the .env file." ;;
    return_
  else
    call (NewMongoClient conn) (MongoClient_new w) ;;
    set_mongo_client (mkMongoClient conn) ;;
    call Ping (ping w) ;;
    print "[SUCCESS] MongoDB connection successful." ;;
    print "[INFO] Defining Vector Search index model..." ;;
    ensure_index ;;
    vector_search ;;
    list_and_drop.

(** Lines 173-178. *)
Definition handlers (e : Exn) : option (M unit) :=
  if is_ConfigurationError e then
    Some (print ("[FATAL] Configuration error: " ++ exn_str e))
  else if is_ConnectionFailure e then
    Some (print ("[FATAL] Connection failed: " ++ exn_str e))
  else if is_Exception e then
    Some (print ("[FATAL] An unexpected error occurred: " ++ exn_str e))
  else None.

(** Lines 179-182. *)
Definition cleanup : M unit :=
  client <- get_mongo_client ;;
  match client with
  | Some _ =>
      emit Close ;;
      print (nl ++ "[INFO] MongoDB connection closed.")
  | None => pass
  end.

(** Lines 43-182 with the module constant [ATLAS_CONNECTION_STRING] as a
    parameter. *)
Definition main_with (conn : string) : Out unit :=
  (print "--- MongoDB & Azure OpenAI Vector Search Example (2025) ---" ;;
   try_finally (try_except (body conn) handlers) cleanup)
    (mkLocals None).

Definition main : Out unit := main_with ATLAS_CONNECTION_STRING.

End Run.

Arguments generate_embedding w text client l : simpl never.
Arguments ensure_index w l : simpl never.
Arguments vector_search w l : simpl never.
Arguments list_and_drop w l : simpl never.

Open Scope list_scope.

(** * Vocabulary of the statements

    The definitions below name parts of a run (events, printed lines,
    cases of a step) and the properties stated about runs; none of them is
    used by the program above. *)

(** ** Runs *)

(** [after evs o]: the events [evs], then the run [o]. *)
Definition after {A} (evs : list Event) (o : Out A) : Out A :=
  mkOut (evs ++ events o) (locals o) (completion o).

(** [emits P m]: every event of [m] satisfies [P], whatever the locals. *)
Definition emits {A} (P : Event -> Prop) (m : M A) : Prop :=
  forall l, Forall P (events (m l)).

(** [keeps m]: [m] does not assign [mongo_client]. *)
Definition keeps {A} (m : M A) : Prop := forall l, locals (m l) = l.

(** Steps 3 to 5, as they follow each other in [body]. *)
Definition steps (w : World) : M unit :=
  ensure_index w ;; vector_search w ;; list_and_drop w.
Arguments steps w l : simpl never.

Definition banner : string :=
  "--- MongoDB & Azure OpenAI Vector Search Example (2025) ---".
Definition connecting : string :=
  (nl ++ "[INFO] Connecting to MongoDB Atlas cluster...")%string.
Definition please_set : string :=
  "[FATAL] Please set your ATLAS_CONNECTION_STRING in the .env file.".
Definition closed : string :=
  (nl ++ "[INFO] MongoDB connection closed.")%string.

(** The test of line 53. *)
Definition placeholder (conn : string) : bool :=
  orb (String.eqb conn "") (contains "<username>" conn).

(** The line printed by the handler of lines 173-178 that catches [e]. *)
Definition diagnostic (e : Exn) : string :=
  (if is_ConfigurationError e then "[FATAL] Configuration error: " ++ exn_str e
   else if is_ConnectionFailure e then "[FATAL] Connection failed: " ++ exn_str e
   else "[FATAL] An unexpected error occurred: " ++ exn_str e)%string.

(** What the handlers print when the body is left by [c]. *)
Definition report (c : Completion unit) : list Event :=
  match c with
  | Raised e => if is_Exception e then [Print (diagnostic e)] else []
  | _ => []
  end.

(** How [main] is left when its body is left by [c]. *)
Definition outcome (c : Completion unit) : Completion unit :=
  match c with
  | Raised e => if is_Exception e then Normal tt else Raised e
  | c => c
  end.

(** The events before step 3 of a run that connects. *)
Definition opening (conn : string) : list Event :=
  [ Print banner; Print connecting; NewMongoClient conn; Ping;
    Print "[SUCCESS] MongoDB connection successful.";
    Print "[INFO] Defining Vector Search index model..." ].

(** The events after the body of a run whose client was created. *)
Definition closing (c : Completion unit) : list Event :=
  match c with
  | Running => []
  | _ => report c ++ [Close; Print closed]
  end.

Definition start : Locals := mkLocals None.

(** The locals once [MongoClient(...)] has returned. *)
Definition connected (conn : string) : Locals :=
  mkLocals (Some (mkMongoClient conn)).

(** ** Sample worlds *)

Definition ok : Result unit := Returns tt.

Definition index_doc (s : string) : IndexDoc := mkIndexDoc INDEX_NAME (Some s).

Definition movie : Doc :=
  mkDoc (Some "The Shawshank Redemption")
        (Some "Two imprisoned men bond over a number of years.")
        (Some 0.5%float).

(** The index is absent at first, is created, and is READY at the third
    poll; the operator answers yes to the search and no to the drop. *)
Definition world_fresh : World :=
  mkWorld ok ok (Returns []) ok
    [Returns []; Returns [index_doc "BUILDING"]; Returns [index_doc "READY"]]
    (Returns "yes") ok (Returns [[0.25%float; 0.5%float]])
    (Returns [movie]) (Returns [index_doc "READY"]) (Returns "no") ok.

(** The index exists and is still BUILDING whenever it is listed. *)
Definition world_building : World :=
  mkWorld ok ok (Returns [index_doc "BUILDING"]) ok []
    (Returns "yes") ok (Returns [[0.25%float; 0.5%float]])
    (Returns [movie]) (Returns [index_doc "BUILDING"]) (Returns "no") ok.

(** The index appears between the check and the create call. *)
Definition world_race : World :=
  mkWorld ok ok (Returns [])
    (Raises (mkExn OperationFailure "Index vector_index_plot already exists"))
    [Returns [index_doc "BUILDING"]; Returns [index_doc "READY"]]
    (Returns "no") ok (Returns [[0.25%float; 0.5%float]])
    (Returns [movie]) (Returns [index_doc "BUILDING"]) (Returns "no") ok.

(** The build fails at the second poll. *)
Definition world_failed : World :=
  mkWorld ok ok (Returns []) ok
    [Returns [index_doc "BUILDING"]; Returns [index_doc "FAILED"]]
    (Returns "yes") ok (Returns [[0.25%float; 0.5%float]])
    (Returns [movie]) (Returns [index_doc "FAILED"]) (Returns "yes") ok.

(** The embedding service refuses the key. *)
Definition world_no_embedding : World :=
  mkWorld ok ok (Returns [index_doc "READY"]) ok []
    (Returns "YES") ok (Raises (mkExn OtherException "401 Unauthorized"))
    (Returns [movie]) (Returns [index_doc "READY"]) (Returns "Yes") ok.

Definition placeholder_string : string :=
  "mongodb+srv://<username>:<password>@cluster0.mongodb.net/".

(** ** Reading a run *)

Definition is_Close (ev : Event) : bool :=
  match ev with Close => true | _ => false end.

(** Number of [mongo_client.close()] calls of a run. *)
Definition closes (evs : list Event) : nat :=
  List.length (filter is_Close evs).

(** [MongoClient(...)] returned during the run. *)
Definition established {A} (o : Out A) : bool :=
  match mongo_client (locals o) with Some _ => true | None => false end.

(** The run has left [main]. *)
Definition exited {A} (o : Out A) : bool :=
  match completion o with Running => false | _ => true end.

(** The embedding request carries the constant query text, and the
    aggregation the pipeline built from the service's vector with the
    constants 150 and 5. *)
Definition fixed_query (w : World) (ev : Event) : Prop :=
  match ev with
  | EmbeddingsCreate input model =>
      input = ["A tale of redemption and friendship in a prison."%string]
      /\ model = "text-embedding-ada-002"%string
  | Aggregate stages =>
      exists v rest,
        embeddings_create w = Returns (v :: rest) /\
        stages =
        [ VectorSearch INDEX_NAME VECTOR_FIELD_PATH v 150 5;
          Project [("title", Include); ("plot", Include);
                   ("score", Meta "vectorSearchScore")]%string ]
  | _ => True
  end.

(** The observation ends the loop: the first document reports READY or
    FAILED (lines 98-105). *)
Definition terminal (listed : list IndexDoc) : bool :=
  match listed with
  | [] => false
  | first :: _ =>
      orb (equals (status first) "READY") (equals (status first) "FAILED")
  end.

Definition is_Print (ev : Event) : bool :=
  match ev with Print _ => true | _ => false end.

(** The events of a run that are not printed lines. *)
Definition calls (evs : list Event) : list Event :=
  filter (fun ev => negb (is_Print ev)) evs.

(** Observations and waits alternate, and every wait is [time.sleep(10)]. *)
Fixpoint paced (cs : list Event) : Prop :=
  match cs with
  | [] => True
  | ListSearchIndexes _ _ :: rest =>
      match rest with
      | [] => True
      | Sleep 10 :: rest' => paced rest'
      | _ => False
      end
  | _ => False
  end.

(** What the loop prints about an observation that does not end it. *)
Definition waiting (listed : list IndexDoc) : string :=
  match listed with
  | [] => "[INFO] Waiting for index creation to initialize..."
  | first :: _ => "[INFO] Current index status: " ++ str (status first)
  end%string.

Definition poll (listed : list IndexDoc) : Event :=
  ListSearchIndexes (Some INDEX_NAME) (Returns listed).

(** The answers of [polls] up to the first that ends the loop. *)
Definition ends_at (polls : list (Result (list IndexDoc))) : Prop :=
  exists pre last rest,
    polls = map Returns pre ++ Returns last :: rest /\
    Forall (fun listed => terminal listed = false) pre /\
    terminal last = true.

(** ** The printed lines and the cases of steps 3 to 5 *)

Definition initializing : string :=
  (nl ++ "[ACTION] Initializing Azure OpenAI client...")%string.
Definition listing : string :=
  (nl ++ "[INFO] Current search indexes for '" ++ COLLECTION_NAME ++ "':")%string.
Definition dropping : string :=
  (nl ++ "[ACTION] Dropping index '" ++ INDEX_NAME ++ "'...")%string.
Definition skipping : string := (nl ++ "[INFO] Skipping index drop.")%string.
Definition build_failed : string :=
  "[ERROR] Index creation failed. Check the Atlas UI for details.".

(** Events that only step 3 produces. *)
Definition of_index_step (ev : Event) : bool :=
  match ev with
  | ListSearchIndexes (Some _) _ | CreateSearchIndex _ | Sleep _ => true
  | Print line => String.eqb line build_failed
  | _ => false
  end.

(** Events that only step 4 produces. *)
Definition of_search_step (ev : Event) : bool :=
  match ev with
  | Input prompt => String.eqb prompt prompt_search
  | NewAzureOpenAI _ | EmbeddingsCreate _ _ | Aggregate _
  | PrintResult _ _ _ => true
  | Print line => String.eqb line initializing
  | _ => false
  end.

(** Events that only step 5 produces. *)
Definition of_drop_step (ev : Event) : bool :=
  match ev with
  | Input prompt => String.eqb prompt prompt_drop
  | DropSearchIndex _ => true
  | Print line =>
      orb (String.eqb line listing)
          (orb (String.eqb line skipping) (String.eqb line dropping))
  | _ => false
  end.

Definition normal {A} (c : Completion A) : bool :=
  match c with Normal _ => true | _ => false end.

(** Events of no step: what [main] prints and calls around steps 3-5. *)
Definition plain (ev : Event) : Prop :=
  of_index_step ev = false /\ of_search_step ev = false /\
  of_drop_step ev = false.

(** The run reaches step 3. *)
Definition connects (conn : string) (w : World) : Prop :=
  placeholder conn = false /\ MongoClient_new w = Returns tt /\
  ping w = Returns tt.

Definition azure_client : AzureOpenAI :=
  mkAzureOpenAI "" "2023-05-15" "https://.openai.azure.com".

Definition generating : string :=
  ("[INFO] Generating embedding for query: '" ++ query_text ++ "'")%string.

Definition embedding_failed (msg : string) : string :=
  ("[ERROR] Failed to generate embedding: " ++ msg)%string.

Definition search_failed (msg : string) : string :=
  ("[FATAL] An error occurred during the search operation: " ++ msg)%string.

(** The embedding call fails with an [Exception] whose text is [msg]: the
    call raises it, or the response has no data and [response.data[0]]
    raises IndexError. *)
Definition embedding_fails (w : World) (msg : string) : Prop :=
  (exists e, embeddings_create w = Raises e /\ is_Exception e = true /\
             msg = exn_str e) \/
  (embeddings_create w = Returns [] /\ msg = exn_str IndexError).

Definition index_line (idx : IndexDoc) : Event :=
  Print ("  - Name: " ++ name idx ++ ", Status: "
           ++ get_default (status idx) "N/A")%string.

Definition dropped : string :=
  ("[SUCCESS] Index '" ++ INDEX_NAME ++ "' dropped.")%string.

(** Lines 165-171 once the prompt has been shown. *)
Definition drop_answer (w : World) (l : Locals) : Out unit :=
  match input_drop w with
  | Raises e => mkOut [] l (Raised e)
  | Returns typed =>
      if String.eqb (lower typed) "yes" then
        match drop_search_index w with
        | Returns _ =>
            mkOut [Print dropping; DropSearchIndex INDEX_NAME; Print dropped]
                  l (Normal tt)
        | Raises e =>
            mkOut [Print dropping; DropSearchIndex INDEX_NAME] l (Raised e)
        end
      else mkOut [Print skipping] l (Normal tt)
  end.

Definition checking : string :=
  (nl ++ "[ACTION] Checking/Creating index '" ++ INDEX_NAME ++ "'...")%string.
Definition exists_skipping : string :=
  ("[WARN] Index '" ++ INDEX_NAME ++ "' already exists. Skipping creation.")%string.
Definition command_sent : string :=
  ("[SUCCESS] Index creation command sent for '" ++ INDEX_NAME
     ++ "'. Monitoring status...")%string.
Definition already_exists : string :=
  ("[WARN] Index '" ++ INDEX_NAME ++ "' already exists.")%string.
Definition error_occurred (msg : string) : string :=
  ("[ERROR] An error occurred: " ++ msg)%string.

(** The test of lines 107-109: an OperationFailure whose text mentions
    "already exists". *)
Definition tolerated (e : Exn) : bool :=
  andb (is_OperationFailure e) (contains "already exists" (exn_str e)).

(** The first listing shows the index (line 86). *)
Definition listed_first (listed : list IndexDoc) : bool :=
  existsb (String.eqb INDEX_NAME) (map name listed).

Definition list_event (w : World) : Event :=
  ListSearchIndexes None (list_first w).

(** Lines 85-106, the body of the inner [try]. *)
Definition index_attempt (w : World) (l : Locals) : Out unit :=
  match list_first w with
  | Raises e => mkOut [list_event w] l (Raised e)
  | Returns listed =>
      if listed_first listed then
        mkOut [list_event w; Print exists_skipping] l (Normal tt)
      else
        match create_search_index w with
        | Raises e =>
            mkOut [list_event w; CreateSearchIndex search_index_model]
                  l (Raised e)
        | Returns _ =>
            after [ list_event w; CreateSearchIndex search_index_model;
                    Print command_sent ]
                  (monitor (list_polls w) l)
        end
  end.

(** Lines 107-113 applied to the way the body was left. *)
Definition handled (o : Out unit) : Out unit :=
  match completion o with
  | Raised e =>
      if is_OperationFailure e then
        if contains "already exists" (exn_str e) then
          mkOut (events o ++ [Print already_exists]) (locals o) (Normal tt)
        else
          mkOut (events o ++ [Print (error_occurred (exn_str e))]) (locals o)
                Returned
      else o
  | _ => o
  end.

(** ** Properties of a run *)

(** The reading of the spec: after the loop has reported FAILED the run
    still reaches the index listing of step 5. *)
Definition continues_after_failure (evs : list Event) : Prop :=
  In (Print build_failed) evs -> In (Print listing) evs.

(** Events of steps 4 and 5: prompts, embedding, search, result lines,
    listing header, drop. *)
Definition later_step (ev : Event) : Prop :=
  of_search_step ev = true \/ of_drop_step ev = true.

Definition is_Create (ev : Event) : bool :=
  match ev with CreateSearchIndex _ => true | _ => false end.

(** Number of create requests of a run. *)
Definition creates (evs : list Event) : nat :=
  List.length (filter is_Create evs).

(** The listing of line 85 or the create call of line 89 raises [e]. *)
Definition fails_at_check_or_create (w : World) (e : Exn) : Prop :=
  list_first w = Raises e \/
  exists listed,
    list_first w = Returns listed /\ listed_first listed = false /\
    create_search_index w = Raises e.

(** The reading of the spec: when the create call fails because the index
    already exists, the run goes on to poll the index by name. *)
Definition resumes_polling (w : World) (evs : list Event) : Prop :=
  forall listed e,
    list_first w = Returns listed -> listed_first listed = false ->
    create_search_index w = Raises e -> tolerated e = true ->
    exists answer, In (ListSearchIndexes (Some INDEX_NAME) answer) evs.

(** What a listing tells about the index [INDEX_NAME]. *)
Inductive Observation : Type :=
| Absent
| Status (reported : option string).

(** The observation an event carries.  A listing by name (line 93) is read
    as the loop reads it, from its first document; a full listing (lines 85
    and 162) from the document of that name. *)
Definition observe (ev : Event) : option Observation :=
  match ev with
  | ListSearchIndexes (Some _) (Returns listed) =>
      Some match listed with
           | [] => Absent
           | first :: _ => Status (status first)
           end
  | ListSearchIndexes None (Returns listed) =>
      Some match find (fun idx => String.eqb (name idx) INDEX_NAME) listed with
           | Some idx => Status (status idx)
           | None => Absent
           end
  | _ => None
  end.

(** The latest observation among [evs]. *)
Fixpoint last_observation (evs : list Event) : option Observation :=
  match evs with
  | [] => None
  | ev :: rest =>
      match last_observation rest with
      | Some o => Some o
      | None => observe ev
      end
  end.

Definition READY : Observation := Status (Some "READY"%string).

(** The reading of the spec: whenever an aggregation is issued, the latest
    observation of the index before it reported READY. *)
Definition searches_only_when_ready (evs : list Event) : Prop :=
  forall before stages rest,
    evs = before ++ Aggregate stages :: rest ->
    last_observation before = Some READY.

(** The observation in force after [evs], when it was [last] before. *)
Definition track (last : option Observation) (evs : list Event)
  : option Observation :=
  match last_observation evs with
  | Some o => Some o
  | None => last
  end.

Definition update (last : option Observation) (ev : Event)
  : option Observation :=
  match observe ev with
  | Some o => Some o
  | None => last
  end.

(** Every aggregation among [evs] is issued while the observation in force
    is READY. *)
Fixpoint guarded (last : option Observation) (evs : list Event) : Prop :=
  match evs with
  | [] => True
  | ev :: rest =>
      match ev with
      | Aggregate _ => last = Some READY
      | _ => True
      end /\ guarded (update last ev) rest
  end.

(** No poll raises the failure that lines 107-110 swallow. *)
Definition polls_not_tolerated (w : World) : Prop :=
  forall e, In (Raises e) (list_polls w) -> tolerated e = false.

(** The run itself creates the index: the name is not in the first
    listing and the create call returns. *)
Definition creates_index (w : World) : Prop :=
  exists listed,
    list_first w = Returns listed /\ listed_first listed = false /\
    create_search_index w = Returns tt.

(** ** Further cases of the steps *)

Definition generating_for (text : string) : string :=
  ("[INFO] Generating embedding for query: '" ++ text ++ "'")%string.

(** Lines 37-41 once the request has been sent: what [generate_embedding]
    makes of the service's answer. *)
Definition embedding_answer (w : World) (l : Locals)
  : Out (option (list float)) :=
  match embeddings_create w with
  | Returns (first :: _) => mkOut [] l (Normal (Some first))
  | Returns [] =>
      mkOut [Print (embedding_failed (exn_str IndexError))] l (Normal None)
  | Raises e =>
      if is_Exception e then
        mkOut [Print (embedding_failed (exn_str e))] l (Normal None)
      else mkOut [] l (Raised e)
  end.

Definition executing : string := "[INFO] Executing $vectorSearch aggregation...".
Definition results_header : string := (nl ++ "--- Search Results ---")%string.

(** The first key of lines 153-155 that [doc] lacks. *)
Definition missing_key (doc : Doc) : option string :=
  match title doc, score doc, plot doc with
  | None, _, _ => Some "title"%string
  | Some _, None, _ => Some "score"%string
  | Some _, Some _, None => Some "plot"%string
  | Some _, Some _, Some _ => None
  end.

(** The lines of the documents before the first that lacks a key. *)
Fixpoint shown (results : list Doc) : list Event :=
  match results with
  | [] => []
  | doc :: rest =>
      match title doc, score doc, plot doc with
      | Some t, Some s, Some p => PrintResult t s (substring 0 150 p) :: shown rest
      | _, _, _ => []
      end
  end.

(** The key whose absence stops the loop of lines 152-155, if any. *)
Fixpoint first_missing (results : list Doc) : option string :=
  match results with
  | [] => None
  | doc :: rest =>
      match missing_key doc with
      | Some key => Some key
      | None => first_missing rest
      end
  end.


(** Anything a run does besides printing lines, building the client and
    pinging the server. *)
Definition operation (ev : Event) : bool :=
  match ev with
  | Print _ | NewMongoClient _ | Ping | Close => false
  | _ => true
  end.

(** [main] is not left by an exception of class [Exception]. *)
Definition no_exception_escapes {A} (c : Completion A) : Prop :=
  match c with
  | Raised e => is_Exception e = false
  | _ => True
  end.

(** The block is left normally or by an exception, not by [return] and not
    in the middle of a loop. *)
Definition settled {A} (c : Completion A) : Prop :=
  match c with
  | Normal _ | Raised _ => True
  | Returned | Running => False
  end.

(** [ends Q m]: [m] is always left in a way that satisfies [Q]. *)
Definition ends {A} (Q : Completion A -> Prop) (m : M A) : Prop :=
  forall l, Q (completion (m l)).

(** The server is interrupted (Ctrl-C) during the ping. *)
Definition world_interrupted : World :=
  mkWorld ok (Raises (mkExn NotAnException "KeyboardInterrupt")) (Returns [])
    ok [] (Returns "no") ok (Returns []) (Returns []) (Returns [])
    (Returns "no") ok.

(** The index is READY; the search returns two documents, the second
    without a plot; the operator asks for the drop, which the server
    refuses. *)
Definition world_drop_refused : World :=
  mkWorld ok ok (Returns [index_doc "READY"]) ok []
    (Returns "yes") ok (Returns [[0.25%float; 0.5%float]])
    (Returns [movie; mkDoc (Some "Untitled") None (Some 0.25%float)])
    (Returns [index_doc "READY"]) (Returns "yes")
    (Raises (mkExn OperationFailure "index not found")).

(** The embedding service answers with an empty vector. *)
Definition world_empty_vector : World :=
  mkWorld ok ok (Returns [index_doc "READY"]) ok []
    (Returns "yes") ok (Returns [[]])
    (Returns [movie]) (Returns [index_doc "READY"]) (Returns "no") ok.

(** The third poll fails with a timeout. *)
Definition world_poll_timeout : World :=
  mkWorld ok ok (Returns []) ok
    [ Returns []; Returns [index_doc "PENDING"];
      Raises (mkExn OperationFailure "operation exceeded time limit") ]
    (Returns "yes") ok (Returns [[0.25%float; 0.5%float]])
    (Returns [movie]) (Returns [index_doc "READY"]) (Returns "no") ok.

(** Lines 131-155: the aggregation for the vector [v] and the result
    lines. *)
Definition query_outcome (w : World) (l : Locals) (v : list float)
  : Out unit :=
  after [Print executing; Aggregate (pipeline v)]
        match aggregate w with
        | Raises e => mkOut [] l (Raised e)
        | Returns results =>
            after [Print results_header] (print_results results l)
        end.

(** Lines 121-155, the body of the inner [try] of step 4. *)
Definition search_attempt (w : World) (l : Locals) : Out unit :=
  match AzureOpenAI_new w with
  | Raises e => mkOut [NewAzureOpenAI azure_client] l (Raised e)
  | Returns _ =>
      after [ NewAzureOpenAI azure_client; Print generating;
              EmbeddingsCreate [query_text] deployment_name ]
            match embeddings_create w with
            | Returns ((x :: v) :: _) => query_outcome w l (x :: v)
            | Returns ([] :: _) => mkOut [] l (Normal tt)
            | Returns [] =>
                mkOut [Print (embedding_failed (exn_str IndexError))] l
                      (Normal tt)
            | Raises e =>
                if is_Exception e then
                  mkOut [Print (embedding_failed (exn_str e))] l (Normal tt)
                else mkOut [] l (Raised e)
            end
  end.

(** Lines 157-158 applied to the way the body was left. *)
Definition caught (o : Out unit) : Out unit :=
  match completion o with
  | Raised e =>
      if is_Exception e then
        mkOut (events o ++ [Print (search_failed (exn_str e))]) (locals o)
              (Normal tt)
      else o
  | _ => o
  end.

(** The search is declined and the listing of step 5 fails. *)
Definition world_listing_fails : World :=
  mkWorld ok ok (Returns [index_doc "READY"]) ok []
    (Returns "no") ok (Returns []) (Returns [])
    (Raises (mkExn OperationFailure "not authorized")) (Returns "yes") ok.

(** ** Counting the operations of a run *)

Definition count (f : Event -> bool) (evs : list Event) : nat :=
  List.length (filter f evs).

Definition is_EmbeddingsCreate (ev : Event) : bool :=
  match ev with EmbeddingsCreate _ _ => true | _ => false end.

Definition is_Aggregate (ev : Event) : bool :=
  match ev with Aggregate _ => true | _ => false end.

Definition is_Drop (ev : Event) : bool :=
  match ev with DropSearchIndex _ => true | _ => false end.

(** * Properties *)

(** ** Laws of the control-flow combinators *)

Section Laws.

Context {A B : Type}.

Lemma events_bind (m : M A) (f : A -> M B) (l : Locals) :
  events (bind m f l) =
  events (m l) ++ match completion (m l) with
                  | Normal a => events (f a (locals (m l)))
                  | _ => []
                  end.
Proof.
  unfold bind. destruct (completion (m l)); simpl;
    rewrite ?app_nil_r; reflexivity.
Qed.

Lemma completion_bind (m : M A) (f : A -> M B) (l : Locals) :
  completion (bind m f l) =
  match completion (m l) with
  | Normal a => completion (f a (locals (m l)))
  | Returned => Returned
  | Raised e => Raised e
  | Running => Running
  end.
Proof. unfold bind. destruct (completion (m l)); reflexivity. Qed.

Lemma locals_bind (m : M A) (f : A -> M B) (l : Locals) :
  locals (bind m f l) =
  match completion (m l) with
  | Normal a => locals (f a (locals (m l)))
  | _ => locals (m l)
  end.
Proof. unfold bind. destruct (completion (m l)); reflexivity. Qed.

End Laws.

Section Stepping.

Context {A B : Type}.

Lemma bind_emit ev (f : unit -> M B) l :
  bind (emit ev) f l = after [ev] (f tt l).
Proof. reflexivity. Qed.

Lemma bind_print line (f : unit -> M B) l :
  bind (print line) f l = after [Print line] (f tt l).
Proof. reflexivity. Qed.

Lemma bind_call_returns ev (a : A) (f : A -> M B) l :
  bind (call ev (Returns a)) f l = after [ev] (f a l).
Proof. reflexivity. Qed.

Lemma bind_call_raises ev e (f : A -> M B) l :
  bind (call ev (@Raises A e)) f l = mkOut [ev] l (Raised e).
Proof. reflexivity. Qed.

Lemma bind_set_mongo_client c (f : unit -> M B) l :
  bind (set_mongo_client c) f l = f tt (mkLocals (Some c)).
Proof.
  unfold bind, set_mongo_client. simpl. destruct (f tt _); reflexivity.
Qed.

Lemma after_after evs evs' (o : Out A) :
  after evs (after evs' o) = after (evs ++ evs') o.
Proof. unfold after. simpl. rewrite app_assoc. reflexivity. Qed.

End Stepping.

Section Emits.

Context {A B : Type} (P : Event -> Prop).

Lemma emits_ret (a : A) : emits P (ret a).
Proof. intros l. constructor. Qed.

Lemma emits_raise (e : Exn) : emits P (@raise A e).
Proof. intros l. constructor. Qed.

Lemma emits_return : emits P (@return_ A).
Proof. intros l. constructor. Qed.

Lemma emits_running : emits P (@running A).
Proof. intros l. constructor. Qed.

Lemma emits_emit (ev : Event) : P ev -> emits P (emit ev).
Proof. intros H l. repeat constructor. exact H. Qed.

Lemma emits_bind (m : M A) (f : A -> M B) :
  emits P m -> (forall a, emits P (f a)) -> emits P (bind m f).
Proof.
  intros Hm Hf l. rewrite events_bind. apply Forall_app. split.
  - apply Hm.
  - destruct (completion (m l)); try constructor. apply Hf.
Qed.

Lemma emits_answer (r : Result A) : emits P (answer r).
Proof. destruct r; intros l; constructor. Qed.

Lemma emits_try_except (m : M A) (h : Exn -> option (M A)) :
  emits P m -> (forall e k, h e = Some k -> emits P k) ->
  emits P (try_except m h).
Proof.
  intros Hm Hh l. unfold try_except.
  destruct (completion (m l)) eqn:E; try apply Hm.
  destruct (h e) eqn:Eh; try apply Hm.
  simpl. apply Forall_app. split; [apply Hm | eapply Hh; eassumption].
Qed.

Lemma emits_try_finally (m : M A) (f : M unit) :
  emits P m -> emits P f -> emits P (try_finally m f).
Proof.
  intros Hm Hf l. unfold try_finally.
  destruct (completion (m l)); simpl;
    try (apply Forall_app; split; [apply Hm | apply Hf]).
  apply Hm.
Qed.

End Emits.

Lemma emits_call {A} (P : Event -> Prop) (ev : Event) (r : Result A) :
  P ev -> emits P (call ev r).
Proof.
  intros H. unfold call. apply emits_bind.
  - apply emits_emit, H.
  - intros _. apply emits_answer.
Qed.

Section Keeps.

Context {A B : Type}.

Lemma keeps_ret (a : A) : keeps (ret a).
Proof. intros l. reflexivity. Qed.

Lemma keeps_raise (e : Exn) : keeps (@raise A e).
Proof. intros l. reflexivity. Qed.

Lemma keeps_return : keeps (@return_ A).
Proof. intros l. reflexivity. Qed.

Lemma keeps_running : keeps (@running A).
Proof. intros l. reflexivity. Qed.

Lemma keeps_emit (ev : Event) : keeps (emit ev).
Proof. intros l. reflexivity. Qed.

Lemma keeps_answer (r : Result A) : keeps (answer r).
Proof. destruct r; intros l; reflexivity. Qed.

Lemma keeps_bind (m : M A) (f : A -> M B) :
  keeps m -> (forall a, keeps (f a)) -> keeps (bind m f).
Proof.
  intros Hm Hf l. rewrite locals_bind.
  destruct (completion (m l)); try apply Hm. rewrite Hf. apply Hm.
Qed.

Lemma keeps_try_except (m : M A) (h : Exn -> option (M A)) :
  keeps m -> (forall e k, h e = Some k -> keeps k) -> keeps (try_except m h).
Proof.
  intros Hm Hh l. unfold try_except.
  destruct (completion (m l)) eqn:E; try apply Hm.
  destruct (h e) eqn:Eh; try apply Hm.
  simpl. rewrite (Hh _ _ Eh). apply Hm.
Qed.

End Keeps.

Lemma keeps_call {A} (ev : Event) (r : Result A) : keeps (call ev r).
Proof.
  unfold call. apply keeps_bind.
  - apply keeps_emit.
  - intros _. apply keeps_answer.
Qed.

(** Structural proof search over a program text: [leaf] closes the goals
    about single events, the hints of [steps] those about a step that has
    its own lemma. *)
Create HintDb steps.

Ltac handler_case :=
  match goal with
  | H : (if ?b then Some _ else None) = Some _ |- _ =>
      destruct b; [injection H as <- | discriminate H]
  end.

Ltac walk leaf :=
  repeat first
    [ solve [auto 1 with steps]
    | solve [leaf]
    | apply emits_bind; [| intros ?]
    | apply keeps_bind; [| intros ?]
    | apply emits_try_except; [| intros ? ? ?; handler_case]
    | apply keeps_try_except; [| intros ? ? ?; handler_case]
    | apply emits_call
    | apply keeps_call
    | apply emits_emit
    | apply keeps_emit
    | apply emits_ret | apply emits_raise | apply emits_return
    | apply emits_running | apply emits_answer
    | apply keeps_ret | apply keeps_raise | apply keeps_return
    | apply keeps_running | apply keeps_answer
    | match goal with
      | |- emits _ (if ?b then _ else _) => destruct b
      | |- keeps (if ?b then _ else _) => destruct b
      | |- emits _ (match ?x with _ => _ end) => destruct x
      | |- keeps (match ?x with _ => _ end) => destruct x
      end ].

(** ** The steps do not touch [mongo_client] *)

Lemma keeps_monitor polls : keeps (monitor polls).
Proof. induction polls as [|r rest IH]; simpl; walk fail. Qed.

Lemma keeps_print_results results : keeps (print_results results).
Proof. induction results as [|doc rest IH]; simpl; walk fail. Qed.

Lemma keeps_print_indexes listed : keeps (print_indexes listed).
Proof. induction listed as [|idx rest IH]; simpl; walk fail. Qed.

Lemma keeps_generate_embedding w text client :
  keeps (generate_embedding w text client).
Proof. unfold generate_embedding. walk fail. Qed.

#[local] Hint Resolve keeps_monitor keeps_print_results keeps_print_indexes
  keeps_generate_embedding : steps.

Lemma keeps_ensure_index w : keeps (ensure_index w).
Proof. unfold ensure_index. walk fail. Qed.

Lemma keeps_vector_search w : keeps (vector_search w).
Proof. unfold vector_search. walk fail. Qed.

Lemma keeps_list_and_drop w : keeps (list_and_drop w).
Proof. unfold list_and_drop. walk fail. Qed.

#[local] Hint Resolve keeps_ensure_index keeps_vector_search
  keeps_list_and_drop : steps.

(** ** The shape of a run of [main] *)

Lemma keeps_steps w : keeps (steps w).
Proof. unfold steps. walk fail. Qed.

Lemma handlers_spec e :
  handlers e = if is_Exception e then Some (print (diagnostic e)) else None.
Proof. destruct e as [[] s]; reflexivity. Qed.

Lemma body_placeholder conn w :
  placeholder conn = true ->
  body w conn start =
  mkOut [Print connecting; Print please_set] start Returned.
Proof.
  intros H. unfold body. fold (placeholder conn). rewrite H.
  rewrite bind_print, bind_print. reflexivity.
Qed.

Lemma body_no_client conn w e :
  placeholder conn = false ->
  MongoClient_new w = Raises e ->
  body w conn start =
  mkOut [Print connecting; NewMongoClient conn] start (Raised e).
Proof.
  intros H H1. unfold body. fold (placeholder conn). rewrite H, H1.
  rewrite bind_print, bind_call_raises. reflexivity.
Qed.

Lemma body_no_ping conn w e :
  placeholder conn = false ->
  MongoClient_new w = Returns tt ->
  ping w = Raises e ->
  body w conn start =
  mkOut [Print connecting; NewMongoClient conn; Ping] (connected conn)
        (Raised e).
Proof.
  intros H H1 H2. unfold body. fold (placeholder conn). rewrite H, H1, H2.
  rewrite bind_print, bind_call_returns, bind_set_mongo_client,
    bind_call_raises.
  reflexivity.
Qed.

Lemma body_connected conn w :
  placeholder conn = false ->
  MongoClient_new w = Returns tt ->
  ping w = Returns tt ->
  body w conn start =
  after [ Print connecting; NewMongoClient conn; Ping;
          Print "[SUCCESS] MongoDB connection successful.";
          Print "[INFO] Defining Vector Search index model..." ]
        (steps w (connected conn)).
Proof.
  intros H H1 H2. unfold body. fold (placeholder conn). rewrite H, H1, H2.
  fold (steps w).
  rewrite bind_print, bind_call_returns, bind_set_mongo_client,
    bind_call_returns, bind_print, bind_print, !after_after.
  reflexivity.
Qed.

Lemma cleanup_spec l :
  cleanup l =
  match mongo_client l with
  | Some _ => mkOut [Close; Print closed] l (Normal tt)
  | None => mkOut [] l (Normal tt)
  end.
Proof. destruct l as [[c|]]; reflexivity. Qed.

(** [main] around a body that is left as [o]. *)
Lemma main_around conn w (o : Out unit) :
  body w conn start = o ->
  main_with w conn =
  after [Print banner]
    (match completion o with
     | Running => o
     | c =>
         match mongo_client (locals o) with
         | Some _ =>
             mkOut (events o ++ report c ++ [Close; Print closed])
                   (locals o) (outcome c)
         | None => mkOut (events o ++ report c) (locals o) (outcome c)
         end
     end).
Proof.
  intros <-. unfold main_with. fold start. rewrite bind_print. f_equal.
  unfold try_finally, try_except.
  destruct (body w conn start) as [evs lo c]. cbn [completion events locals].
  destruct c as [[]| |e|]; cbn [completion events locals report outcome];
    try reflexivity.
  - rewrite cleanup_spec. destruct (mongo_client lo); reflexivity.
  - rewrite cleanup_spec. destruct (mongo_client lo); reflexivity.
  - rewrite handlers_spec. destruct (is_Exception e);
      cbn [completion events locals print emit];
      rewrite cleanup_spec; destruct (mongo_client lo);
      cbn [completion events locals]; rewrite <- ?app_assoc, ?app_nil_r;
      reflexivity.
Qed.

Lemma main_placeholder conn w :
  placeholder conn = true ->
  main_with w conn =
  mkOut [Print banner; Print connecting; Print please_set] start Returned.
Proof.
  intros H. rewrite (main_around conn w _ (body_placeholder conn w H)).
  reflexivity.
Qed.

Lemma main_no_client conn w e :
  placeholder conn = false ->
  MongoClient_new w = Raises e ->
  main_with w conn =
  mkOut ([Print banner; Print connecting; NewMongoClient conn]
           ++ report (Raised e))
        start (outcome (Raised e)).
Proof.
  intros H H1. rewrite (main_around conn w _ (body_no_client conn w e H H1)).
  reflexivity.
Qed.

Lemma main_no_ping conn w e :
  placeholder conn = false ->
  MongoClient_new w = Returns tt ->
  ping w = Raises e ->
  main_with w conn =
  mkOut ([Print banner; Print connecting; NewMongoClient conn; Ping]
           ++ closing (Raised e))
        (connected conn) (outcome (Raised e)).
Proof.
  intros H H1 H2.
  rewrite (main_around conn w _ (body_no_ping conn w e H H1 H2)).
  reflexivity.
Qed.

Lemma main_connected conn w :
  placeholder conn = false ->
  MongoClient_new w = Returns tt ->
  ping w = Returns tt ->
  main_with w conn =
  mkOut (opening conn ++ events (steps w (connected conn))
           ++ closing (completion (steps w (connected conn))))
        (connected conn) (outcome (completion (steps w (connected conn)))).
Proof.
  intros H H1 H2.
  rewrite (main_around conn w _ (body_connected conn w H H1 H2)).
  pose proof (keeps_steps w (connected conn)) as Hl.
  destruct (steps w (connected conn)) as [evs lo c].
  cbn [locals] in Hl. subst lo. unfold after, opening, closing.
  cbn [completion events locals connected mongo_client].
  destruct c as [[]| |e|]; cbn [app report outcome];
    rewrite <- ?app_assoc, ?app_nil_r; reflexivity.
Qed.

(** The four ways a run of [main] can go, each with its equation. *)
Ltac main_cases conn w :=
  let Hp := fresh "Hplaceholder" in
  let H1 := fresh "Hclient" in
  let H2 := fresh "Hping" in
  let e := fresh "e" in
  destruct (placeholder conn) eqn:Hp;
  [ rewrite (main_placeholder conn w Hp)
  | destruct (MongoClient_new w) as [[]|e] eqn:H1;
    [ destruct (ping w) as [[]|e] eqn:H2;
      [ rewrite (main_connected conn w Hp H1 H2)
      | rewrite (main_no_ping conn w e Hp H1 H2) ]
    | rewrite (main_no_client conn w e Hp H1) ] ].

(** ** Fatal configuration *)

(** C9: when the placeholder marker is still in the connection string the
    run prints the diagnostic and returns at once: the whole run is three
    printed lines, no client is created ([mongo_client] stays [None]) and no
    call reaches the store, the embedding service or the operator. *)
Theorem placeholder_is_fatal conn w :
  contains "<username>" conn = true ->
  main_with w conn =
  mkOut [Print banner; Print connecting; Print please_set]
        start Returned.
Proof.
  intros H. apply main_placeholder. unfold placeholder. rewrite H.
  apply orb_true_r.
Qed.

Lemma placeholder_is_fatal_witness :
  contains "<username>" placeholder_string = true /\
  main_with world_fresh placeholder_string =
  mkOut [Print banner; Print connecting; Print please_set]
        start Returned.
Proof.
  split; [reflexivity | apply (placeholder_is_fatal placeholder_string)].
  reflexivity.
Defined.

(** ** Release of the connection *)

Lemma closes_app evs evs' : closes (evs ++ evs') = closes evs + closes evs'.
Proof. unfold closes. rewrite filter_app, List.length_app. reflexivity. Qed.

Lemma closes_none evs :
  Forall (fun ev => is_Close ev = false) evs -> closes evs = 0.
Proof.
  induction 1 as [|ev evs H _ IH]; [reflexivity|].
  unfold closes in *. simpl. rewrite H. exact IH.
Qed.

Section NoClose.

Let quiet (ev : Event) : Prop := is_Close ev = false.

Lemma monitor_no_close polls : emits quiet (monitor polls).
Proof. induction polls as [|r rest IH]; simpl; walk reflexivity. Qed.

Lemma print_results_no_close results : emits quiet (print_results results).
Proof. induction results as [|doc rest IH]; simpl; walk reflexivity. Qed.

Lemma print_indexes_no_close listed : emits quiet (print_indexes listed).
Proof. induction listed as [|idx rest IH]; simpl; walk reflexivity. Qed.

Lemma steps_no_close w : emits quiet (steps w).
Proof.
  pose proof monitor_no_close. pose proof print_results_no_close.
  pose proof print_indexes_no_close.
  unfold steps, ensure_index, vector_search, list_and_drop, generate_embedding.
  walk reflexivity.
Qed.

End NoClose.

(** C8: a run that leaves [main] closes the client exactly once when
    [MongoClient(...)] had returned and never otherwise; so no path closes
    twice, and no path that created the client leaves without closing it. *)
Theorem connection_released_once conn w :
  closes (events (main_with w conn)) =
  if andb (established (main_with w conn)) (exited (main_with w conn))
  then 1 else 0.
Proof.
  main_cases conn w; unfold established, exited;
    cbn [events locals completion connected start mongo_client andb].
  - reflexivity.
  - rewrite !closes_app, (closes_none _ (steps_no_close w (connected conn))).
    destruct (completion (steps w (connected conn))) as [[]| |e|];
      try reflexivity.
    cbn. destruct (is_Exception e); reflexivity.
  - cbn. destruct (is_Exception e); reflexivity.
  - cbn. destruct (is_Exception e); reflexivity.
Qed.

(** ** The query is fixed *)

Lemma emits_bind_post {A B} (P : Event -> Prop) (Q : A -> Prop)
      (m : M A) (f : A -> M B) :
  emits P m ->
  (forall l a, completion (m l) = Normal a -> Q a) ->
  (forall a, Q a -> emits P (f a)) ->
  emits P (bind m f).
Proof.
  intros Hm HQ Hf l. rewrite events_bind. apply Forall_app. split.
  - apply Hm.
  - destruct (completion (m l)) eqn:E; try constructor.
    apply Hf, (HQ l), E.
Qed.

(** What [generate_embedding] returns: [None], or the first vector of the
    service's answer. *)
Lemma generate_embedding_result w text client l a :
  completion (generate_embedding w text client l) = Normal a ->
  a = None \/
  exists v rest, a = Some v /\ embeddings_create w = Returns (v :: rest).
Proof.
  unfold generate_embedding. rewrite bind_print. unfold after, try_except.
  cbn [completion String.eqb deployment_name].
  destruct (embeddings_create w) as [[|v rest]|e].
  - rewrite bind_call_returns. cbn. intros [= <-]. left. reflexivity.
  - rewrite bind_call_returns. cbn. intros [= <-]. right. eauto.
  - rewrite bind_call_raises. cbn. destruct (is_Exception e); cbn.
    + intros [= <-]. left. reflexivity.
    + discriminate.
Qed.

Ltac fixed_leaf := first [exact I | split; reflexivity].

Lemma monitor_fixed_query w polls : emits (fixed_query w) (monitor polls).
Proof. induction polls as [|r rest IH]; simpl; walk fixed_leaf. Qed.

Lemma print_results_fixed_query w results :
  emits (fixed_query w) (print_results results).
Proof. induction results as [|doc rest IH]; simpl; walk fixed_leaf. Qed.

Lemma print_indexes_fixed_query w listed :
  emits (fixed_query w) (print_indexes listed).
Proof. induction listed as [|idx rest IH]; simpl; walk fixed_leaf. Qed.

Lemma generate_embedding_fixed_query w client :
  emits (fixed_query w) (generate_embedding w query_text client).
Proof. unfold generate_embedding. walk fixed_leaf. Qed.

Lemma vector_search_fixed_query w : emits (fixed_query w) (vector_search w).
Proof.
  pose proof (print_results_fixed_query w).
  unfold vector_search.
  apply emits_bind; [walk fixed_leaf | intros typed].
  destruct (String.eqb (lower typed) "yes"); [| walk fixed_leaf].
  apply emits_bind; [walk fixed_leaf | intros _].
  apply emits_try_except; [| intros e k Hk; handler_case; walk fixed_leaf].
  apply emits_bind; [walk fixed_leaf | intros _].
  eapply emits_bind_post.
  - apply generate_embedding_fixed_query.
  - intros l a. apply generate_embedding_result.
  - intros a [->|(v & rest & -> & Hv)]; [walk fixed_leaf|].
    destruct v as [|x v]; [walk fixed_leaf|]. cbn [truthy].
    apply emits_bind; [walk fixed_leaf | intros _].
    apply emits_bind; [| intros results; walk fixed_leaf].
    apply emits_call. cbn. eauto.
Qed.

Lemma steps_fixed_query w : emits (fixed_query w) (steps w).
Proof.
  pose proof (monitor_fixed_query w). pose proof (vector_search_fixed_query w).
  pose proof (print_indexes_fixed_query w).
  unfold steps. apply emits_bind; [| intros _; apply emits_bind; [| intros _]].
  - unfold ensure_index. walk fixed_leaf.
  - assumption.
  - unfold list_and_drop. walk fixed_leaf.
Qed.

(** C10: in every run, whatever the operator types, an embedding request
    carries the constant query text and an aggregation carries the pipeline
    with [numCandidates] 150 and [limit] 5 around the vector the embedding
    service returned. *)
Theorem query_is_fixed conn w :
  Forall (fixed_query w) (events (main_with w conn)).
Proof.
  main_cases conn w; cbn [events].
  - repeat constructor.
  - unfold opening. rewrite !Forall_app. split; [repeat constructor|]. split.
    + apply steps_fixed_query.
    + unfold closing, report.
      destruct (completion (steps w (connected conn))) as [[]| |e|];
        try destruct (is_Exception e); repeat constructor.
  - unfold closing, report. destruct (is_Exception e); repeat constructor.
  - unfold report. destruct (is_Exception e); repeat constructor.
Qed.

(** ** The poll loop *)

Lemma monitor_nil l : monitor [] l = mkOut [] l Running.
Proof. reflexivity. Qed.

Lemma monitor_raises e rest l :
  monitor (Raises e :: rest) l =
  mkOut [ListSearchIndexes (Some INDEX_NAME) (Raises e)] l (Raised e).
Proof. cbn [monitor]. rewrite bind_call_raises. reflexivity. Qed.

Lemma monitor_waits listed rest l :
  terminal listed = false ->
  monitor (Returns listed :: rest) l =
  after [poll listed; Print (waiting listed); Sleep 10] (monitor rest l).
Proof.
  intros H. cbn [monitor]. rewrite bind_call_returns.
  destruct listed as [|first others].
  - rewrite bind_print, bind_emit, !after_after. reflexivity.
  - cbn [terminal] in H. apply orb_false_elim in H as [Hr Hf].
    rewrite bind_print, Hr, Hf, bind_emit, !after_after. reflexivity.
Qed.

Lemma monitor_ready first others rest l :
  equals (status first) "READY" = true ->
  monitor (Returns (first :: others) :: rest) l =
  mkOut [ poll (first :: others);
          Print (waiting (first :: others));
          Print "[SUCCESS] Index is built and ready for use. ✅" ]
        l (Normal tt).
Proof.
  intros H. cbn [monitor]. rewrite bind_call_returns, bind_print, H.
  reflexivity.
Qed.

Lemma monitor_failed first others rest l :
  equals (status first) "READY" = false ->
  equals (status first) "FAILED" = true ->
  monitor (Returns (first :: others) :: rest) l =
  mkOut [ poll (first :: others);
          Print (waiting (first :: others));
          Print "[ERROR] Index creation failed. Check the Atlas UI for details." ]
        l Returned.
Proof.
  intros Hr Hf. cbn [monitor].
  rewrite bind_call_returns, bind_print, Hr, Hf, bind_print. reflexivity.
Qed.

Lemma paced_monitor polls l : paced (calls (events (monitor polls l))).
Proof.
  induction polls as [|[listed|e] rest IH].
  - exact I.
  - destruct (terminal listed) eqn:Ht.
    + destruct listed as [|first others]; [discriminate|].
      destruct (equals (status first) "READY") eqn:Hr.
      * rewrite monitor_ready by assumption. exact I.
      * cbn [terminal] in Ht. rewrite Hr in Ht.
        rewrite monitor_failed by assumption. exact I.
    + rewrite monitor_waits by assumption. exact IH.
  - rewrite monitor_raises. exact I.
Qed.

Lemma monitor_left polls l :
  completion (monitor polls l) = Normal tt \/
  completion (monitor polls l) = Returned <-> ends_at polls.
Proof.
  induction polls as [|[listed|e] rest IH].
  - split.
    + intros [H|H]; discriminate H.
    + intros (pre & last & rest & H & _). destruct pre; discriminate H.
  - destruct (terminal listed) eqn:Ht.
    + split.
      * intros _. exists [], listed, rest. repeat split; auto.
      * intros _. destruct listed as [|first others]; [discriminate|].
        destruct (equals (status first) "READY") eqn:Hr.
        -- rewrite monitor_ready by assumption. left. reflexivity.
        -- cbn [terminal] in Ht. rewrite Hr in Ht.
           rewrite monitor_failed by assumption. right. reflexivity.
    + rewrite monitor_waits by assumption. cbn [after completion].
      rewrite IH. split.
      * intros (pre & last & rest' & -> & Hpre & Hlast).
        exists (listed :: pre), last, rest'. repeat split; auto.
      * intros (pre & last & rest' & H & Hpre & Hlast).
        destruct pre as [|first pre]; cbn in H; injection H as H1 H2.
        -- congruence.
        -- inversion Hpre. exists pre, last, rest'. repeat split; auto.
  - rewrite monitor_raises. split.
    + intros [H|H]; discriminate H.
    + intros (pre & last & rest' & H & _). destruct pre; discriminate H.
Qed.

Lemma monitor_still_running observed l :
  Forall (fun listed => terminal listed = false) observed ->
  completion (monitor (map Returns observed) l) = Running /\
  calls (events (monitor (map Returns observed) l)) =
  flat_map (fun listed => [poll listed; Sleep 10]) observed.
Proof.
  induction 1 as [|listed observed H _ [IHc IHe]].
  - split; reflexivity.
  - cbn [map flat_map]. rewrite monitor_waits by assumption. split.
    + exact IHc.
    + cbn. rewrite <- IHe. reflexivity.
Qed.

(** C4: the loop is left by [break] or [return] exactly when some poll
    returns a status READY or FAILED, at the first such poll; as long as the
    polls return anything else (BUILDING, another status, no status, no
    document) the loop keeps running, and each of those polls is followed by
    [time.sleep(10)] before the next one. *)
Theorem poll_loop_terminal_detection polls observed l :
  (completion (monitor polls l) = Normal tt \/
   completion (monitor polls l) = Returned <-> ends_at polls) /\
  paced (calls (events (monitor polls l))) /\
  (Forall (fun listed => terminal listed = false) observed ->
   completion (monitor (map Returns observed) l) = Running /\
   calls (events (monitor (map Returns observed) l)) =
   flat_map (fun listed => [poll listed; Sleep 10]) observed).
Proof.
  split; [apply monitor_left|]. split; [apply paced_monitor|].
  apply monitor_still_running.
Qed.

Lemma poll_loop_terminal_detection_witness :
  Forall (fun listed => terminal listed = false) [[]; [index_doc "BUILDING"]] /\
  completion (monitor (map Returns [[]; [index_doc "BUILDING"]]) start)
  = Running /\
  calls (events (monitor (map Returns [[]; [index_doc "BUILDING"]]) start)) =
  [ poll []; Sleep 10; poll [index_doc "BUILDING"]; Sleep 10 ].
Proof.
  assert (H : Forall (fun listed => terminal listed = false)
                     [[]; [index_doc "BUILDING"]])
    by (repeat constructor).
  split; [exact H|].
  apply (poll_loop_terminal_detection (list_polls world_fresh)
           [[]; [index_doc "BUILDING"]] start), H.
Defined.

(** ** Which step an event belongs to *)

Lemma normal_unit (c : Completion unit) : normal c = true <-> c = Normal tt.
Proof.
  destruct c as [[]| | |]; cbn; split; intros H; try reflexivity;
    discriminate H.
Qed.

Lemma steps_events w l :
  events (steps w l) =
  events (ensure_index w l) ++
  (if normal (completion (ensure_index w l)) then
     events (vector_search w l) ++
     (if normal (completion (vector_search w l)) then
        events (list_and_drop w l)
      else [])
   else []).
Proof.
  unfold steps. rewrite events_bind, keeps_ensure_index.
  destruct (completion (ensure_index w l)); cbn [normal]; try reflexivity.
  rewrite events_bind, keeps_vector_search.
  destruct (completion (vector_search w l)); reflexivity.
Qed.

Lemma steps_completion w l :
  completion (steps w l) =
  match completion (ensure_index w l) with
  | Normal _ =>
      match completion (vector_search w l) with
      | Normal _ => completion (list_and_drop w l)
      | c => c
      end
  | c => c
  end.
Proof.
  unfold steps. rewrite completion_bind, keeps_ensure_index.
  destruct (completion (ensure_index w l)); try reflexivity.
  rewrite completion_bind, keeps_vector_search.
  destruct (completion (vector_search w l)) as [[]| | |]; reflexivity.
Qed.

Lemma not_in_quiet (f : Event -> bool) evs x :
  Forall (fun ev => f ev = false) evs -> f x = true -> ~ In x evs.
Proof.
  intros H Hx Hin. rewrite Forall_forall in H. apply H in Hin. congruence.
Qed.

Section Foreign.

Let not_search (ev : Event) : Prop := of_search_step ev = false.
Let not_drop (ev : Event) : Prop := of_drop_step ev = false.
Let not_index (ev : Event) : Prop := of_index_step ev = false.

Lemma monitor_not_search polls : emits not_search (monitor polls).
Proof. induction polls as [|r rest IH]; simpl; walk reflexivity. Qed.

Lemma monitor_not_drop polls : emits not_drop (monitor polls).
Proof. induction polls as [|r rest IH]; simpl; walk reflexivity. Qed.

Lemma ensure_index_not_search w : emits not_search (ensure_index w).
Proof.
  pose proof monitor_not_search. unfold ensure_index. walk reflexivity.
Qed.

Lemma ensure_index_not_drop w : emits not_drop (ensure_index w).
Proof. pose proof monitor_not_drop. unfold ensure_index. walk reflexivity. Qed.

Lemma print_results_not_index results : emits not_index (print_results results).
Proof. induction results as [|doc rest IH]; simpl; walk reflexivity. Qed.

Lemma print_results_not_drop results : emits not_drop (print_results results).
Proof. induction results as [|doc rest IH]; simpl; walk reflexivity. Qed.

Lemma vector_search_not_index w : emits not_index (vector_search w).
Proof.
  pose proof print_results_not_index.
  unfold vector_search, generate_embedding. walk reflexivity.
Qed.

Lemma vector_search_not_drop w : emits not_drop (vector_search w).
Proof.
  pose proof print_results_not_drop.
  unfold vector_search, generate_embedding. walk reflexivity.
Qed.

Lemma print_indexes_not_index listed : emits not_index (print_indexes listed).
Proof. induction listed as [|idx rest IH]; simpl; walk reflexivity. Qed.

Lemma print_indexes_not_search listed : emits not_search (print_indexes listed).
Proof. induction listed as [|idx rest IH]; simpl; walk reflexivity. Qed.

Lemma list_and_drop_not_index w : emits not_index (list_and_drop w).
Proof.
  pose proof print_indexes_not_index. unfold list_and_drop. walk reflexivity.
Qed.

Lemma list_and_drop_not_search w : emits not_search (list_and_drop w).
Proof.
  pose proof print_indexes_not_search. unfold list_and_drop. walk reflexivity.
Qed.

End Foreign.

(** ** Where an event of a run comes from *)

Lemma opening_plain conn : Forall plain (opening conn).
Proof. repeat constructor. Qed.

Lemma report_plain c : Forall plain (report c).
Proof.
  destruct c as [[]| |[[] s]|]; cbn; repeat constructor.
Qed.

Lemma closing_plain c : Forall plain (closing c).
Proof.
  unfold closing. destruct c as [[]| |e|];
    first [ apply Forall_app; split; [apply report_plain | repeat constructor]
          | constructor ].
Qed.

Lemma plain_not_in (f : Event -> bool) evs x :
  (forall ev, plain ev -> f ev = false) ->
  Forall plain evs -> f x = true -> ~ In x evs.
Proof.
  intros Hf H Hx Hin. rewrite Forall_forall in H.
  apply H, Hf in Hin. congruence.
Qed.

Lemma located (f : Event -> bool) conn w x :
  (forall ev, plain ev -> f ev = false) ->
  f x = true ->
  In x (events (main_with w conn)) <->
  connects conn w /\ In x (events (steps w (connected conn))).
Proof.
  intros Hf Hx. unfold connects. main_cases conn w; cbn [events].
  - split.
    + intros H. exfalso. revert H. apply (plain_not_in f); auto.
      repeat constructor.
    + intros [(H & _) _]. discriminate H.
  - rewrite !in_app_iff. split.
    + intros [H|[H|H]]; [exfalso| |exfalso].
      * revert H. apply (plain_not_in f); auto using opening_plain.
      * auto.
      * revert H. apply (plain_not_in f); auto using closing_plain.
    + intros [_ H]. auto.
  - split.
    + intros H. exfalso. revert H. apply (plain_not_in f); auto.
      apply Forall_app. split; [repeat constructor | apply closing_plain].
    + intros [(_ & _ & H) _]. discriminate H.
  - split.
    + intros H. exfalso. revert H. apply (plain_not_in f); auto.
      apply Forall_app. split; [repeat constructor | apply report_plain].
    + intros [(_ & H & _) _]. discriminate H.
Qed.

Lemma located_index w l x :
  of_index_step x = true ->
  In x (events (steps w l)) <-> In x (events (ensure_index w l)).
Proof.
  intros Hx. rewrite steps_events, in_app_iff. split; [|auto].
  intros [H|H]; [exact H | exfalso].
  destruct (normal (completion (ensure_index w l))); [|exact H].
  apply in_app_iff in H as [H|H].
  - revert H. apply (not_in_quiet of_index_step); auto.
    apply vector_search_not_index.
  - destruct (normal (completion (vector_search w l))); [|exact H].
    revert H. apply (not_in_quiet of_index_step); auto.
    apply list_and_drop_not_index.
Qed.

Lemma located_search w l x :
  of_search_step x = true ->
  In x (events (steps w l)) <->
  completion (ensure_index w l) = Normal tt /\
  In x (events (vector_search w l)).
Proof.
  intros Hx. rewrite steps_events, in_app_iff, <- normal_unit. split.
  - intros [H|H].
    + exfalso. revert H. apply (not_in_quiet of_search_step); auto.
      apply ensure_index_not_search.
    + destruct (normal (completion (ensure_index w l))); [|destruct H].
      split; [reflexivity|]. apply in_app_iff in H as [H|H]; [exact H|].
      exfalso. destruct (normal (completion (vector_search w l)));
        [|exact H].
      revert H. apply (not_in_quiet of_search_step); auto.
      apply list_and_drop_not_search.
  - intros [-> H]. right. apply in_app_iff. auto.
Qed.

Lemma located_drop w l x :
  of_drop_step x = true ->
  In x (events (steps w l)) <->
  completion (ensure_index w l) = Normal tt /\
  completion (vector_search w l) = Normal tt /\
  In x (events (list_and_drop w l)).
Proof.
  intros Hx. rewrite steps_events, in_app_iff, <- !normal_unit. split.
  - intros [H|H].
    + exfalso. revert H. apply (not_in_quiet of_drop_step); auto.
      apply ensure_index_not_drop.
    + destruct (normal (completion (ensure_index w l))); [|destruct H].
      split; [reflexivity|]. apply in_app_iff in H as [H|H].
      * exfalso. revert H. apply (not_in_quiet of_drop_step); auto.
        apply vector_search_not_drop.
      * destruct (normal (completion (vector_search w l))); [|destruct H].
        auto.
  - intros (-> & -> & H). right. apply in_app_iff. auto.
Qed.

Lemma plain_not_index ev : plain ev -> of_index_step ev = false.
Proof. intros H. apply H. Qed.

Lemma plain_not_search ev : plain ev -> of_search_step ev = false.
Proof. intros H. apply H. Qed.

Lemma plain_not_drop ev : plain ev -> of_drop_step ev = false.
Proof. intros H. apply H. Qed.

(** ** Stepping through a block whose first part is known *)

Section Known.

Context {A B : Type}.

Lemma bind_normal (m : M A) (f : A -> M B) l evs l' a :
  m l = mkOut evs l' (Normal a) -> bind m f l = after evs (f a l').
Proof. intros H. unfold bind. rewrite H. reflexivity. Qed.

Lemma bind_raised (m : M A) (f : A -> M B) l evs l' e :
  m l = mkOut evs l' (Raised e) -> bind m f l = mkOut evs l' (Raised e).
Proof. intros H. unfold bind. rewrite H. reflexivity. Qed.

Lemma bind_returned (m : M A) (f : A -> M B) l evs l' :
  m l = mkOut evs l' Returned -> bind m f l = mkOut evs l' Returned.
Proof. intros H. unfold bind. rewrite H. reflexivity. Qed.

Lemma bind_running (m : M A) (f : A -> M B) l evs l' :
  m l = mkOut evs l' Running -> bind m f l = mkOut evs l' Running.
Proof. intros H. unfold bind. rewrite H. reflexivity. Qed.

Lemma try_except_caught (m : M A) h l evs l' e k :
  m l = mkOut evs l' (Raised e) -> h e = Some k ->
  try_except m h l = after evs (k l').
Proof. intros H Hk. unfold try_except. rewrite H. cbn. rewrite Hk. reflexivity. Qed.

Lemma try_except_passed (m : M A) h l evs l' e :
  m l = mkOut evs l' (Raised e) -> h e = None ->
  try_except m h l = mkOut evs l' (Raised e).
Proof. intros H Hk. unfold try_except. rewrite H. cbn. rewrite Hk. reflexivity. Qed.

Lemma try_except_normal (m : M A) h l evs l' a :
  m l = mkOut evs l' (Normal a) ->
  try_except m h l = mkOut evs l' (Normal a).
Proof. intros H. unfold try_except. rewrite H. reflexivity. Qed.

Lemma try_except_returned (m : M A) h l evs l' :
  m l = mkOut evs l' Returned -> try_except m h l = mkOut evs l' Returned.
Proof. intros H. unfold try_except. rewrite H. reflexivity. Qed.

Lemma try_except_running (m : M A) h l evs l' :
  m l = mkOut evs l' Running -> try_except m h l = mkOut evs l' Running.
Proof. intros H. unfold try_except. rewrite H. reflexivity. Qed.

End Known.

(** ** Step 4, case by case *)

Lemma generate_embedding_fails w client l msg :
  embedding_fails w msg ->
  generate_embedding w query_text client l =
  mkOut [ Print generating; EmbeddingsCreate [query_text] deployment_name;
          Print (embedding_failed msg) ]
        l (Normal None).
Proof.
  intros H. unfold generate_embedding. rewrite bind_print.
  cbn [String.eqb deployment_name].
  destruct H as [(e & He & Hexn & ->)|[He ->]]; rewrite He.
  - erewrite try_except_caught;
      [| rewrite bind_call_raises; reflexivity | rewrite Hexn; reflexivity ].
    reflexivity.
  - erewrite try_except_caught;
      [| rewrite bind_call_returns; reflexivity | reflexivity ].
    reflexivity.
Qed.

Lemma vector_search_input_raises w l e :
  input_search w = Raises e ->
  vector_search w l = mkOut [Input prompt_search] l (Raised e).
Proof.
  intros H. unfold vector_search. rewrite H, bind_call_raises. reflexivity.
Qed.

Lemma vector_search_declined w l typed :
  input_search w = Returns typed ->
  String.eqb (lower typed) "yes" = false ->
  vector_search w l = mkOut [Input prompt_search] l (Normal tt).
Proof.
  intros H Hno. unfold vector_search.
  rewrite H, bind_call_returns, Hno. reflexivity.
Qed.

Lemma vector_search_accepted w l typed :
  input_search w = Returns typed ->
  String.eqb (lower typed) "yes" = true ->
  exists o, vector_search w l
            = after [Input prompt_search; Print initializing] o.
Proof.
  intros H Hyes. unfold vector_search.
  rewrite H, bind_call_returns, Hyes, bind_print, after_after.
  eexists. reflexivity.
Qed.

Lemma vector_search_no_client w l typed e :
  input_search w = Returns typed ->
  String.eqb (lower typed) "yes" = true ->
  AzureOpenAI_new w = Raises e ->
  vector_search w l =
  if is_Exception e then
    mkOut [ Input prompt_search; Print initializing;
            NewAzureOpenAI azure_client; Print (search_failed (exn_str e)) ]
          l (Normal tt)
  else
    mkOut [ Input prompt_search; Print initializing;
            NewAzureOpenAI azure_client ]
          l (Raised e).
Proof.
  intros H Hyes Hnew. unfold vector_search.
  rewrite H, bind_call_returns, Hyes, bind_print, after_after, Hnew.
  destruct (is_Exception e) eqn:Hexn.
  - erewrite try_except_caught;
      [| rewrite bind_call_raises; reflexivity | rewrite Hexn; reflexivity ].
    reflexivity.
  - erewrite try_except_passed;
      [| rewrite bind_call_raises; reflexivity | rewrite Hexn; reflexivity ].
    reflexivity.
Qed.

Lemma vector_search_embedding_fails w l typed msg :
  input_search w = Returns typed ->
  String.eqb (lower typed) "yes" = true ->
  AzureOpenAI_new w = Returns tt ->
  embedding_fails w msg ->
  vector_search w l =
  mkOut [ Input prompt_search; Print initializing;
          NewAzureOpenAI azure_client; Print generating;
          EmbeddingsCreate [query_text] deployment_name;
          Print (embedding_failed msg) ]
        l (Normal tt).
Proof.
  intros H Hyes Hnew Hfails. unfold vector_search.
  rewrite H, bind_call_returns, Hyes, bind_print, after_after, Hnew.
  erewrite try_except_normal.
  2:{ rewrite bind_call_returns.
      erewrite bind_normal
        by (apply generate_embedding_fails; eassumption).
      reflexivity. }
  reflexivity.
Qed.

Lemma index_event_iff conn w x :
  of_index_step x = true ->
  In x (events (main_with w conn)) <->
  connects conn w /\ In x (events (ensure_index w (connected conn))).
Proof.
  intros Hx.
  rewrite (located of_index_step conn w x plain_not_index Hx).
  rewrite (located_index w _ x Hx). reflexivity.
Qed.

Lemma search_event_iff conn w x :
  of_search_step x = true ->
  In x (events (main_with w conn)) <->
  connects conn w /\
  completion (ensure_index w (connected conn)) = Normal tt /\
  In x (events (vector_search w (connected conn))).
Proof.
  intros Hx.
  rewrite (located of_search_step conn w x plain_not_search Hx).
  rewrite (located_search w _ x Hx). reflexivity.
Qed.

Lemma drop_event_iff conn w x :
  of_drop_step x = true ->
  In x (events (main_with w conn)) <->
  connects conn w /\
  completion (ensure_index w (connected conn)) = Normal tt /\
  completion (vector_search w (connected conn)) = Normal tt /\
  In x (events (list_and_drop w (connected conn))).
Proof.
  intros Hx.
  rewrite (located of_drop_step conn w x plain_not_drop Hx).
  rewrite (located_drop w _ x Hx). reflexivity.
Qed.

(** ** Step 5, case by case *)

Lemma print_indexes_spec listed l :
  print_indexes listed l = mkOut (map index_line listed) l (Normal tt).
Proof.
  induction listed as [|idx rest IH]; [reflexivity|].
  cbn [print_indexes map]. rewrite bind_print, IH. reflexivity.
Qed.

Lemma list_and_drop_spec w l :
  list_and_drop w l =
  match list_last w with
  | Raises e =>
      mkOut [Print listing; ListSearchIndexes None (Raises e)] l (Raised e)
  | Returns listed =>
      after (Print listing :: ListSearchIndexes None (Returns listed)
               :: map index_line listed ++ [Input prompt_drop])
            (drop_answer w l)
  end.
Proof.
  unfold list_and_drop, drop_answer. rewrite bind_print.
  destruct (list_last w) as [listed|e].
  - rewrite bind_call_returns.
    rewrite (bind_normal _ _ _ _ _ _ (print_indexes_spec listed l)).
    rewrite !after_after.
    destruct (input_drop w) as [typed|e].
    + rewrite bind_call_returns, after_after.
      destruct (String.eqb (lower typed) "yes").
      * rewrite bind_print.
        destruct (drop_search_index w) as [[]|e].
        -- rewrite bind_call_returns. unfold after. cbn.
           rewrite <- !app_assoc. reflexivity.
        -- rewrite bind_call_raises. unfold after. cbn.
           rewrite <- !app_assoc. reflexivity.
      * unfold after. cbn. rewrite <- !app_assoc. reflexivity.
    + rewrite bind_call_raises. unfold after. cbn.
      rewrite <- !app_assoc, app_nil_r. reflexivity.
  - rewrite bind_call_raises. reflexivity.
Qed.

Lemma index_line_not_drop listed x :
  In x (map index_line listed) -> of_drop_step x = false.
Proof. intros H. apply in_map_iff in H as (idx & <- & _). reflexivity. Qed.

(** ** The two prompts *)

(** Splits a hypothesis [In x evs] along the list. *)
Ltac in_cases H :=
  repeat first
    [ apply in_app_iff in H as [H|H]
    | apply in_inv in H as [H|H]
    | apply in_nil in H; destruct H
    | match type of H with
      | _ \/ _ => destruct H as [H|H]
      | False => destruct H
      end ].

Lemma eqb_yes typed : String.eqb (lower typed) "yes" = true <-> lower typed = "yes"%string.
Proof. apply String.eqb_eq. Qed.

Lemma eqb_not_yes typed :
  String.eqb (lower typed) "yes" = false <-> lower typed <> "yes"%string.
Proof. apply String.eqb_neq. Qed.

Lemma search_prompt_decides conn w typed :
  In (Input prompt_search) (events (main_with w conn)) ->
  input_search w = Returns typed ->
  (In (Print initializing) (events (main_with w conn))
   <-> lower typed = "yes"%string) /\
  (lower typed <> "yes"%string ->
   forall ev, In ev (events (main_with w conn)) ->
              of_search_step ev = true -> ev = Input prompt_search).
Proof.
  intros Hin Htyped.
  apply search_event_iff in Hin as (Hc & Hn & _); [|reflexivity].
  split.
  - rewrite search_event_iff by reflexivity. rewrite <- eqb_yes.
    destruct (String.eqb (lower typed) "yes") eqn:E.
    + split; [reflexivity|]. intros _. split; [exact Hc | split; [exact Hn|]].
      destruct (vector_search_accepted w (connected conn) typed Htyped E)
        as [o ->].
      cbn. auto.
    + rewrite (vector_search_declined w _ typed Htyped E). split.
      * intros (_ & _ & H). cbn in H. destruct H as [H|[]]. discriminate H.
      * discriminate.
  - intros Hno ev Hev Hstep. apply eqb_not_yes in Hno.
    apply search_event_iff in Hev as (_ & _ & Hev); [|exact Hstep].
    rewrite (vector_search_declined w _ typed Htyped Hno) in Hev.
    cbn in Hev. destruct Hev as [<-|[]]. reflexivity.
Qed.

Lemma drop_prompt_decides conn w typed :
  In (Input prompt_drop) (events (main_with w conn)) ->
  input_drop w = Returns typed ->
  (In (DropSearchIndex INDEX_NAME) (events (main_with w conn))
   <-> lower typed = "yes"%string) /\
  (In (Print skipping) (events (main_with w conn))
   <-> lower typed <> "yes"%string).
Proof.
  intros Hin Htyped.
  apply drop_event_iff in Hin as (Hc & Hn & Hs & Hin); [|reflexivity].
  rewrite !drop_event_iff by reflexivity.
  rewrite <- (eqb_not_yes typed), <- (eqb_yes typed).
  rewrite list_and_drop_spec in *.
  destruct (list_last w) as [listed|e].
  2:{ cbn in Hin. destruct Hin as [H|[H|[]]]; discriminate H. }
  clear Hin. unfold drop_answer. rewrite Htyped.
  destruct (String.eqb (lower typed) "yes") eqn:E.
  - split; split; try discriminate; try reflexivity.
    + intros _. split; [exact Hc | split; [exact Hn | split; [exact Hs|]]].
      destruct (drop_search_index w) as [[]|e]; cbn [after events];
        rewrite !in_app_iff; cbn; auto 10.
    + intros (_ & _ & _ & H). exfalso.
      destruct (drop_search_index w) as [[]|e]; cbn [after events] in H;
        in_cases H; try discriminate H;
        apply index_line_not_drop in H; discriminate H.
  - split; split; try discriminate; try reflexivity.
    + intros (_ & _ & _ & H). exfalso. cbn [after events] in H.
      in_cases H; try discriminate H.
      apply index_line_not_drop in H; discriminate H.
    + intros _. split; [exact Hc | split; [exact Hn | split; [exact Hs|]]].
      cbn [after events].
      rewrite !in_app_iff; cbn; auto 10.
Qed.

(** C7: at either prompt the affirmative branch is taken exactly when the
    answer, lowercased, is [yes].  For the search prompt: the step starts
    (its first line is printed) iff so, and otherwise the prompt is the only
    event of the step.  For the drop prompt: the index is dropped iff so,
    and the skip line is printed iff not. *)
Theorem prompts_default_to_no conn w :
  (forall typed,
      In (Input prompt_search) (events (main_with w conn)) ->
      input_search w = Returns typed ->
      (In (Print initializing) (events (main_with w conn))
       <-> lower typed = "yes"%string) /\
      (lower typed <> "yes"%string ->
       forall ev, In ev (events (main_with w conn)) ->
                  of_search_step ev = true -> ev = Input prompt_search)) /\
  (forall typed,
      In (Input prompt_drop) (events (main_with w conn)) ->
      input_drop w = Returns typed ->
      (In (DropSearchIndex INDEX_NAME) (events (main_with w conn))
       <-> lower typed = "yes"%string) /\
      (In (Print skipping) (events (main_with w conn))
       <-> lower typed <> "yes"%string)).
Proof.
  split; intros typed.
  - apply search_prompt_decides.
  - apply drop_prompt_decides.
Qed.

Lemma prompts_default_to_no_witness :
  (In (Input prompt_search) (events (main world_no_embedding)) /\
   input_search world_no_embedding = Returns "YES"%string /\
   (In (Print initializing) (events (main world_no_embedding))
    <-> lower "YES" = "yes"%string)) /\
  (In (Input prompt_drop) (events (main world_fresh)) /\
   input_drop world_fresh = Returns "no"%string /\
   (In (Print skipping) (events (main world_fresh))
    <-> lower "no" <> "yes"%string)).
Proof.
  assert (H1 : In (Input prompt_search) (events (main world_no_embedding)))
    by (vm_compute; repeat first [left; reflexivity | right]).
  assert (H2 : In (Input prompt_drop) (events (main world_fresh)))
    by (vm_compute; repeat first [left; reflexivity | right]).
  split; (split; [assumption|]); (split; [reflexivity|]).
  - apply (proj1 (prompts_default_to_no ATLAS_CONNECTION_STRING
                    world_no_embedding) "YES"%string H1 eq_refl).
  - apply (proj2 (prompts_default_to_no ATLAS_CONNECTION_STRING
                    world_fresh) "no"%string H2 eq_refl).
Defined.

(** ** A failing embedding call *)

Lemma list_and_drop_starts w l :
  exists rest,
    events (list_and_drop w l)
    = Print listing :: ListSearchIndexes None (list_last w) :: rest.
Proof.
  rewrite list_and_drop_spec. destruct (list_last w) as [listed|e].
  - eexists. reflexivity.
  - eexists. reflexivity.
Qed.

(** The embedding call was made: the operator said yes and the client was
    built. *)
Lemma embedding_call_made w l input model :
  In (EmbeddingsCreate input model) (events (vector_search w l)) ->
  exists typed,
    input_search w = Returns typed /\
    String.eqb (lower typed) "yes" = true /\
    AzureOpenAI_new w = Returns tt.
Proof.
  intros H. destruct (input_search w) as [typed|e] eqn:Hinput.
  - destruct (String.eqb (lower typed) "yes") eqn:Hyes.
    + destruct (AzureOpenAI_new w) as [[]|e] eqn:Hnew.
      * exists typed. auto.
      * exfalso.
        rewrite (vector_search_no_client w l typed e Hinput Hyes Hnew) in H.
        destruct (is_Exception e); in_cases H; discriminate H.
    + exfalso. rewrite (vector_search_declined w l typed Hinput Hyes) in H.
      in_cases H; discriminate H.
  - exfalso. rewrite (vector_search_input_raises w l e Hinput) in H.
    in_cases H; discriminate H.
Qed.

(** C6: when the embedding call of a run fails with an [Exception] (the
    call raises, or the response has no data), no aggregation is issued in
    that run, and right after the error line of [generate_embedding] the run
    prints the header of the index listing and lists the indexes. *)
Theorem embedding_failure_skips_search conn w msg input model :
  In (EmbeddingsCreate input model) (events (main_with w conn)) ->
  embedding_fails w msg ->
  (forall stages, ~ In (Aggregate stages) (events (main_with w conn))) /\
  exists before rest,
    events (main_with w conn) =
    before
      ++ [ EmbeddingsCreate [query_text] deployment_name;
           Print (embedding_failed msg);
           Print listing;
           ListSearchIndexes None (list_last w) ]
      ++ rest.
Proof.
  intros Hin Hfails.
  apply search_event_iff in Hin as (Hc & Hn & Hin); [|reflexivity].
  apply embedding_call_made in Hin as (typed & Hinput & Hyes & Hnew).
  pose proof (vector_search_embedding_fails w (connected conn) typed msg
                Hinput Hyes Hnew Hfails) as Hvs.
  split.
  - intros stages H.
    apply search_event_iff in H as (_ & _ & H); [|reflexivity].
    rewrite Hvs in H. in_cases H; discriminate H.
  - destruct Hc as (Hp & Hclient & Hping).
    rewrite (main_connected conn w Hp Hclient Hping). cbn [events].
    rewrite steps_events, Hn, Hvs. cbn [normal completion events].
    destruct (list_and_drop_starts w (connected conn)) as [rest ->].
    exists (opening conn ++ events (ensure_index w (connected conn))
              ++ [ Input prompt_search; Print initializing;
                   NewAzureOpenAI azure_client; Print generating ]).
    eexists. rewrite <- !app_assoc. cbn [app]. reflexivity.
Qed.

Lemma embedding_failure_skips_search_witness :
  (forall stages, ~ In (Aggregate stages) (events (main world_no_embedding))) /\
  exists before rest,
    events (main world_no_embedding) =
    before
      ++ [ EmbeddingsCreate [query_text] deployment_name;
           Print (embedding_failed "401 Unauthorized");
           Print listing;
           ListSearchIndexes None (list_last world_no_embedding) ]
      ++ rest.
Proof.
  apply (embedding_failure_skips_search ATLAS_CONNECTION_STRING
           world_no_embedding "401 Unauthorized"
           [query_text] deployment_name).
  - vm_compute; repeat first [left; reflexivity | right].
  - left. eexists. repeat split; reflexivity.
Defined.

(** ** Step 3, case by case *)

Lemma ensure_index_spec w l :
  ensure_index w l = after [Print checking] (handled (index_attempt w l)).
Proof.
  unfold ensure_index. rewrite bind_print. f_equal.
  match goal with
  | |- try_except ?m ?h l = _ =>
      assert (Hbody : m l = index_attempt w l);
      [| unfold try_except, handled; rewrite Hbody;
         destruct (index_attempt w l) as [evs lo [[]| |e|]];
         cbn [completion events locals]; try reflexivity;
         destruct (is_OperationFailure e); [|reflexivity];
         destruct (contains "already exists" (exn_str e));
         rewrite ?bind_print; reflexivity ]
  end.
  unfold index_attempt, list_event, listed_first.
  destruct (list_first w) as [listed|e].
  - rewrite bind_call_returns.
    destruct (existsb (String.eqb INDEX_NAME) (map name listed)).
    + reflexivity.
    + destruct (create_search_index w) as [[]|e].
      * rewrite bind_call_returns, bind_print, !after_after. reflexivity.
      * rewrite bind_call_raises. reflexivity.
  - rewrite bind_call_raises. reflexivity.
Qed.

Lemma waiting_not_failed listed : Print (waiting listed) <> Print build_failed.
Proof. destruct listed; cbn; discriminate. Qed.

(** The failure line of the poll loop is its last event, and the loop then
    returns from [main]. *)
Lemma monitor_build_failed polls l :
  In (Print build_failed) (events (monitor polls l)) ->
  completion (monitor polls l) = Returned /\
  exists before, events (monitor polls l) = before ++ [Print build_failed].
Proof.
  induction polls as [|[listed|e] rest IH].
  - intros [].
  - destruct (terminal listed) eqn:Ht.
    + destruct listed as [|first others]; [discriminate|].
      destruct (equals (status first) "READY") eqn:Hr.
      * rewrite monitor_ready by assumption. intros H. exfalso.
        in_cases H; discriminate H.
      * cbn [terminal] in Ht. rewrite Hr in Ht.
        rewrite monitor_failed by assumption. intros _. split; [reflexivity|].
        exists [poll (first :: others); Print (waiting (first :: others))].
        reflexivity.
    + rewrite monitor_waits by assumption. intros H.
      cbn [after events app] in H. destruct H as [H|[H|[H|H]]].
      * discriminate H.
      * exfalso. revert H. apply waiting_not_failed.
      * discriminate H.
      * destruct (IH H) as [Hc [before Hb]]. split; [exact Hc|].
        exists ([poll listed; Print (waiting listed); Sleep 10] ++ before).
        cbn [after events]. rewrite Hb, app_assoc. reflexivity.
  - rewrite monitor_raises. intros H. in_cases H; discriminate H.
Qed.

Lemma handled_after evs o : handled (after evs o) = after evs (handled o).
Proof.
  destruct o as [evs' lo c]. unfold handled, after.
  cbn [completion events locals].
  destruct c as [[]| |e|]; try reflexivity.
  destruct (is_OperationFailure e); [|reflexivity].
  destruct (contains "already exists" (exn_str e));
    cbn [completion events locals]; rewrite app_assoc; reflexivity.
Qed.

Lemma handled_returned o : completion o = Returned -> handled o = o.
Proof. intros H. unfold handled. rewrite H. reflexivity. Qed.

Lemma handled_running o : completion o = Running -> handled o = o.
Proof. intros H. unfold handled. rewrite H. reflexivity. Qed.

Lemma handled_normal o a : completion o = Normal a -> handled o = o.
Proof. intros H. unfold handled. rewrite H. reflexivity. Qed.

Lemma handled_build_failed o :
  In (Print build_failed) (events (handled o)) ->
  In (Print build_failed) (events o).
Proof.
  unfold handled. destruct (completion o) as [[]| |e|]; try tauto.
  destruct (is_OperationFailure e); [|tauto].
  destruct (contains "already exists" (exn_str e)); cbn [events];
    intros H; apply in_app_iff in H as [H|H]; try exact H;
    in_cases H; discriminate H.
Qed.

Lemma ensure_index_build_failed w l :
  In (Print build_failed) (events (ensure_index w l)) ->
  completion (ensure_index w l) = Returned /\
  exists before, events (ensure_index w l) = before ++ [Print build_failed].
Proof.
  rewrite ensure_index_spec. intros H. cbn [after events app] in H.
  destruct H as [H|H]; [discriminate H|].
  apply handled_build_failed in H. revert H. unfold index_attempt.
  destruct (list_first w) as [listed|e].
  - destruct (listed_first listed).
    + intros H. exfalso. in_cases H; discriminate H.
    + destruct (create_search_index w) as [[]|e].
      * intros H. cbn [after events app] in H.
        destruct H as [H|[H|[H|H]]]; try discriminate H.
        destruct (monitor_build_failed _ _ H) as [Hc [before Hb]].
        rewrite handled_after, (handled_returned _ Hc), after_after.
        cbn [after completion events]. split; [exact Hc|].
        rewrite Hb, app_assoc. eexists. reflexivity.
      * intros H. exfalso. in_cases H; discriminate H.
  - intros H. exfalso. in_cases H; discriminate H.
Qed.

(** ** A failed build *)

(** In [world_failed] the second poll reports FAILED; the run prints the
    failure line, closes the client and returns, and never prints the header
    of the listing. *)
Lemma continues_after_failure_counterexample :
  ~ continues_after_failure (events (main world_failed)).
Proof.
  intros H.
  assert (Hin : In (Print build_failed) (events (main world_failed)))
    by (vm_compute; repeat first [left; reflexivity | right]).
  apply H in Hin. vm_compute in Hin. in_cases Hin; discriminate Hin.
Qed.

Lemma plain_not_later ev : plain ev -> ~ later_step ev.
Proof. intros (_ & Hs & Hd) [H|H]; congruence. Qed.

(** C3, as the code has it: a build that the loop sees FAILED ends the run.
    The failure line is followed only by the release of the connection;
    [main] returns; and no event of step 4 or step 5 (prompt, embedding,
    search, listing, drop) occurs anywhere in the run. *)
Theorem failed_build_ends_run conn w :
  In (Print build_failed) (events (main_with w conn)) ->
  completion (main_with w conn) = Returned /\
  (exists before,
      events (main_with w conn)
      = before ++ [Print build_failed; Close; Print closed]) /\
  Forall (fun ev => ~ later_step ev) (events (main_with w conn)).
Proof.
  intros Hin. apply index_event_iff in Hin as (Hc & Hin); [|reflexivity].
  destruct (ensure_index_build_failed _ _ Hin) as [Hret [before Hb]].
  destruct Hc as (Hp & Hclient & Hping).
  rewrite (main_connected conn w Hp Hclient Hping).
  cbn [events completion]. rewrite steps_events, steps_completion, Hret.
  cbn [normal closing report outcome app]. rewrite app_nil_r.
  split; [reflexivity|]. split.
  - exists (opening conn ++ before). rewrite Hb, <- !app_assoc. reflexivity.
  - rewrite !Forall_app. split; [|split].
    + eapply Forall_impl; [|apply opening_plain]. apply plain_not_later.
    + pose proof (ensure_index_not_search w (connected conn)) as Hs.
      pose proof (ensure_index_not_drop w (connected conn)) as Hd.
      eapply Forall_impl; [|apply (Forall_and Hs Hd)].
      cbv beta. intros ev [H1 H2] [H|H]; congruence.
    + repeat constructor; intros [H|H]; discriminate H.
Qed.

Lemma failed_build_ends_run_witness :
  completion (main world_failed) = Returned /\
  (exists before,
      events (main world_failed)
      = before ++ [Print build_failed; Close; Print closed]) /\
  Forall (fun ev => ~ later_step ev) (events (main world_failed)).
Proof.
  apply (failed_build_ends_run ATLAS_CONNECTION_STRING world_failed).
  vm_compute; repeat first [left; reflexivity | right].
Defined.

(** ** Creating the index once *)

Lemma creates_app evs evs' : creates (evs ++ evs') = creates evs + creates evs'.
Proof. unfold creates. rewrite filter_app, List.length_app. reflexivity. Qed.

Lemma creates_none evs :
  Forall (fun ev => is_Create ev = false) evs -> creates evs = 0.
Proof.
  induction 1 as [|ev evs H _ IH]; [reflexivity|].
  unfold creates in *. cbn [filter]. rewrite H. exact IH.
Qed.

Lemma creates_not_index evs :
  Forall (fun ev => of_index_step ev = false) evs -> creates evs = 0.
Proof.
  intros H. apply creates_none. eapply Forall_impl; [|exact H].
  intros [] Hev; try reflexivity. discriminate Hev.
Qed.

Lemma creates_plain evs : Forall plain evs -> creates evs = 0.
Proof.
  intros H. apply creates_not_index. eapply Forall_impl; [|exact H].
  intros ev Hev. apply Hev.
Qed.

Lemma monitor_no_create polls :
  emits (fun ev => is_Create ev = false) (monitor polls).
Proof. induction polls as [|r rest IH]; simpl; walk reflexivity. Qed.

Lemma creates_handled o : creates (events (handled o)) = creates (events o).
Proof.
  unfold handled. destruct (completion o) as [[]| |e|]; try reflexivity.
  destruct (is_OperationFailure e); [|reflexivity].
  destruct (contains "already exists" (exn_str e)); cbn [events];
    rewrite creates_app; cbn; apply Nat.add_0_r.
Qed.

Lemma creates_ensure_index w l : creates (events (ensure_index w l)) <= 1.
Proof.
  rewrite ensure_index_spec. cbn [after events app].
  change (creates (events (handled (index_attempt w l))) <= 1).
  rewrite creates_handled. unfold index_attempt, list_event.
  destruct (list_first w) as [listed|e].
  - destruct (listed_first listed).
    + cbn. lia.
    + destruct (create_search_index w) as [[]|e].
      * cbn [after events]. rewrite creates_app.
        rewrite (creates_none _ (monitor_no_create _ l)). cbn. lia.
      * cbn. lia.
  - cbn. lia.
Qed.

(** The index is in the first listing: nothing is created and nothing is
    polled. *)
Lemma ensure_index_existing w l listed :
  list_first w = Returns listed ->
  listed_first listed = true ->
  ensure_index w l =
  mkOut [ Print checking; ListSearchIndexes None (Returns listed);
          Print exists_skipping ]
        l (Normal tt).
Proof.
  intros H Hin. rewrite ensure_index_spec. unfold index_attempt, list_event.
  rewrite H, Hin. reflexivity.
Qed.

Lemma creates_main conn w :
  creates (events (main_with w conn)) <=
  creates (events (ensure_index w (connected conn))).
Proof.
  main_cases conn w; cbn [events].
  - cbn. lia.
  - rewrite !creates_app, (creates_plain _ (opening_plain conn)),
      (creates_plain _ (closing_plain _)), steps_events, creates_app.
    destruct (normal (completion (ensure_index w (connected conn)))).
    + rewrite creates_app,
        (creates_not_index _ (vector_search_not_index w (connected conn))).
      destruct (normal (completion (vector_search w (connected conn)))).
      * rewrite (creates_not_index _
                   (list_and_drop_not_index w (connected conn))). lia.
      * cbn. lia.
    + cbn. lia.
  - rewrite creates_app, (creates_plain _ (closing_plain _)). cbn. lia.
  - rewrite creates_app, (creates_plain _ (report_plain _)). cbn. lia.
Qed.

Lemma listed_first_in listed :
  In INDEX_NAME (map name listed) -> listed_first listed = true.
Proof.
  intros H. unfold listed_first. apply existsb_exists.
  exists INDEX_NAME. split; [exact H | apply String.eqb_refl].
Qed.

(** C5: when the second of two runs finds the index name in its first
    listing (as it does once the first run has created it), the two runs
    together issue at most one create request: the second issues none, does
    not poll, and leaves the step normally.  Stated for step 3 alone and for
    whole runs of [main]. *)
Theorem create_is_idempotent conn w1 w2 l1 l2 listed :
  list_first w2 = Returns listed ->
  In INDEX_NAME (map name listed) ->
  creates (events (ensure_index w1 l1) ++ events (ensure_index w2 l2)) <= 1 /\
  ensure_index w2 l2 =
  mkOut [ Print checking; ListSearchIndexes None (Returns listed);
          Print exists_skipping ]
        l2 (Normal tt) /\
  creates (events (main_with w1 conn) ++ events (main_with w2 conn)) <= 1.
Proof.
  intros H Hin. apply listed_first_in in Hin.
  pose proof (ensure_index_existing w2 l2 listed H Hin) as H2.
  split; [|split].
  - rewrite creates_app, H2. pose proof (creates_ensure_index w1 l1).
    cbn. lia.
  - exact H2.
  - rewrite creates_app.
    pose proof (creates_main conn w1). pose proof (creates_main conn w2).
    pose proof (creates_ensure_index w1 (connected conn)).
    rewrite (ensure_index_existing w2 (connected conn) listed H Hin) in *.
    cbn in *. lia.
Qed.

Lemma create_is_idempotent_witness :
  creates (events (ensure_index world_fresh start)
             ++ events (ensure_index world_building start)) <= 1 /\
  ensure_index world_building start =
  mkOut [ Print checking;
          ListSearchIndexes None (Returns [index_doc "BUILDING"]);
          Print exists_skipping ]
        start (Normal tt) /\
  creates (events (main world_fresh) ++ events (main world_building)) <= 1.
Proof.
  apply (create_is_idempotent ATLAS_CONNECTION_STRING world_fresh
           world_building start start [index_doc "BUILDING"]).
  - reflexivity.
  - left. reflexivity.
Defined.

(** ** The check-then-create race *)

(** In [world_race] the create call raises "already exists"; polls that
    would report BUILDING and then READY are available, and the run makes
    none of them. *)
Lemma resumes_polling_counterexample :
  ~ resumes_polling world_race (events (main world_race)).
Proof.
  intros H.
  destruct (H [] (mkExn OperationFailure "Index vector_index_plot already exists")
              eq_refl eq_refl eq_refl eq_refl) as [answer Hin].
  vm_compute in Hin. in_cases Hin; discriminate Hin.
Qed.

Lemma vector_search_prompts w l :
  In (Input prompt_search) (events (vector_search w l)).
Proof.
  destruct (input_search w) as [typed|e] eqn:Hinput.
  - destruct (String.eqb (lower typed) "yes") eqn:Hyes.
    + destruct (vector_search_accepted w l typed Hinput Hyes) as [o ->].
      left. reflexivity.
    + rewrite (vector_search_declined w l typed Hinput Hyes).
      left. reflexivity.
  - rewrite (vector_search_input_raises w l e Hinput). left. reflexivity.
Qed.

(** A run whose step 3 is not left normally has no event of a later step. *)
Lemma run_ends_at_index conn w :
  connects conn w ->
  normal (completion (ensure_index w (connected conn))) = false ->
  Forall (fun ev => ~ later_step ev) (events (main_with w conn)).
Proof.
  intros (Hp & Hclient & Hping) Hn.
  rewrite (main_connected conn w Hp Hclient Hping). cbn [events].
  rewrite steps_events, Hn, app_nil_r, !Forall_app. split; [|split].
  - eapply Forall_impl; [|apply opening_plain]. apply plain_not_later.
  - pose proof (ensure_index_not_search w (connected conn)) as Hs.
    pose proof (ensure_index_not_drop w (connected conn)) as Hd.
    eapply Forall_impl; [|apply (Forall_and Hs Hd)].
    cbv beta. intros ev [H1 H2] [H|H]; congruence.
  - eapply Forall_impl; [|apply closing_plain]. apply plain_not_later.
Qed.

Lemma ensure_index_failure w l e :
  fails_at_check_or_create w e ->
  exists evs,
    (evs = [list_event w]
     \/ evs = [list_event w; CreateSearchIndex search_index_model]) /\
    ensure_index w l =
    if is_OperationFailure e then
      if contains "already exists" (exn_str e) then
        mkOut (Print checking :: evs ++ [Print already_exists]) l (Normal tt)
      else
        mkOut (Print checking :: evs ++ [Print (error_occurred (exn_str e))])
              l Returned
    else mkOut (Print checking :: evs) l (Raised e).
Proof.
  intros [H|(listed & H & Hnot & Hcreate)].
  - exists [list_event w]. split; [auto|].
    rewrite ensure_index_spec. unfold index_attempt. rewrite H.
    unfold handled. cbn [completion events locals].
    destruct (is_OperationFailure e); try reflexivity.
    destruct (contains "already exists" (exn_str e)); reflexivity.
  - exists [list_event w; CreateSearchIndex search_index_model].
    split; [auto|].
    rewrite ensure_index_spec. unfold index_attempt.
    rewrite H, Hnot, Hcreate.
    unfold handled. cbn [completion events locals].
    destruct (is_OperationFailure e); try reflexivity.
    destruct (contains "already exists" (exn_str e)); reflexivity.
Qed.

(** C2, as the code has it: an OperationFailure of the first listing or of
    the create call whose text mentions "already exists" is swallowed: step
    3 is left normally after a warning and the run goes on to the search
    prompt.  Any other failure there ends the run: step 3 returns from
    [main] (OperationFailure) or lets the exception through, and no event of
    a later step occurs.  In neither case is the index polled by name. *)
Theorem create_race_tolerated conn w e :
  connects conn w ->
  fails_at_check_or_create w e ->
  (forall answer,
      ~ In (ListSearchIndexes (Some INDEX_NAME) answer)
           (events (main_with w conn))) /\
  (tolerated e = true ->
   completion (ensure_index w (connected conn)) = Normal tt /\
   In (Print already_exists) (events (main_with w conn)) /\
   In (Input prompt_search) (events (main_with w conn))) /\
  (tolerated e = false ->
   completion (ensure_index w (connected conn))
   = (if is_OperationFailure e then Returned else Raised e) /\
   Forall (fun ev => ~ later_step ev) (events (main_with w conn))).
Proof.
  intros Hc Hfail.
  destruct (ensure_index_failure w (connected conn) e Hfail)
    as (evs & Hevs & Hrun).
  split; [|split].
  - intros answer H. apply index_event_iff in H as (_ & H); [|reflexivity].
    rewrite Hrun in H. unfold list_event in Hevs.
    destruct (is_OperationFailure e);
      [destruct (contains "already exists" (exn_str e))|];
      destruct Hevs as [-> | ->]; cbn [events app] in H;
      in_cases H; discriminate H.
  - unfold tolerated. intros Ht. apply andb_prop in Ht as [Hop Hex].
    rewrite Hop, Hex in Hrun.
    assert (Hn : completion (ensure_index w (connected conn)) = Normal tt)
      by (rewrite Hrun; reflexivity).
    split; [exact Hn|]. split.
    + destruct Hc as (Hp & Hclient & Hping).
      rewrite (main_connected conn w Hp Hclient Hping). cbn [events].
      rewrite steps_events, !in_app_iff. right. left. left.
      rewrite Hrun. cbn [events]. right. apply in_app_iff. right.
      left. reflexivity.
    + apply search_event_iff; [reflexivity|].
      split; [exact Hc|]. split; [exact Hn|]. apply vector_search_prompts.
  - intros Ht.
    assert (Hcompl : completion (ensure_index w (connected conn))
                     = (if is_OperationFailure e then Returned else Raised e)).
    { rewrite Hrun. unfold tolerated in Ht.
      destruct (is_OperationFailure e); [|reflexivity].
      cbn [andb] in Ht. rewrite Ht. reflexivity. }
    split; [exact Hcompl|]. apply run_ends_at_index; [exact Hc|].
    rewrite Hcompl. destruct (is_OperationFailure e); reflexivity.
Qed.

Lemma create_race_tolerated_witness :
  (forall answer,
      ~ In (ListSearchIndexes (Some INDEX_NAME) answer)
           (events (main world_race))) /\
  (true = true ->
   completion (ensure_index world_race (connected ATLAS_CONNECTION_STRING))
   = Normal tt /\
   In (Print already_exists) (events (main world_race)) /\
   In (Input prompt_search) (events (main world_race))).
Proof.
  destruct (create_race_tolerated ATLAS_CONNECTION_STRING world_race
              (mkExn OperationFailure "Index vector_index_plot already exists"))
    as (H1 & H2 & _).
  - repeat split; reflexivity.
  - right. exists []. repeat split; reflexivity.
  - split; [exact H1 | exact H2].
Defined.

(** ** Searching a READY index *)

(** In [world_building] the index is listed as BUILDING before the search
    (and still after it); the aggregation is the sixteenth event of the
    run. *)
Lemma searches_only_when_ready_counterexample :
  ~ searches_only_when_ready (events (main world_building)).
Proof.
  intros H.
  assert (E : events (main world_building)
              = firstn 15 (events (main world_building))
                  ++ Aggregate (pipeline [0.25%float; 0.5%float])
                  :: skipn 16 (events (main world_building)))
    by (vm_compute; reflexivity).
  apply H in E. vm_compute in E. discriminate E.
Qed.

Lemma track_cons last ev rest :
  track last (ev :: rest) = track (update last ev) rest.
Proof.
  unfold track, update. cbn [last_observation].
  destruct (last_observation rest), (observe ev); reflexivity.
Qed.

Lemma track_app last evs evs' :
  track last (evs ++ evs') = track (track last evs) evs'.
Proof.
  revert last. induction evs as [|ev evs IH]; intros last.
  - reflexivity.
  - cbn [app]. rewrite !track_cons. apply IH.
Qed.

Lemma guarded_sound evs : guarded None evs -> searches_only_when_ready evs.
Proof.
  intros H before stages rest ->.
  enough (Hgen : forall last,
             guarded last (before ++ Aggregate stages :: rest) ->
             track last before = Some READY).
  { specialize (Hgen None H). unfold track in Hgen.
    destruct (last_observation before); [exact Hgen | discriminate Hgen]. }
  clear H. induction before as [|ev before IH]; intros last H.
  - apply H.
  - rewrite track_cons. apply IH, H.
Qed.

Lemma guarded_app last evs evs' :
  guarded last evs -> guarded (track last evs) evs' ->
  guarded last (evs ++ evs').
Proof.
  revert last. induction evs as [|ev evs IH]; intros last H H'.
  - exact H'.
  - cbn [app guarded]. split; [apply H|]. apply IH; [apply H|].
    rewrite <- track_cons. exact H'.
Qed.

Lemma guarded_not_search last evs :
  Forall (fun ev => of_search_step ev = false) evs -> guarded last evs.
Proof.
  intros H. revert last. induction H as [|ev evs Hev _ IH]; intros last.
  - exact I.
  - split; [|apply IH]. destruct ev; try exact I. discriminate Hev.
Qed.

Lemma guarded_plain last evs : Forall plain evs -> guarded last evs.
Proof.
  intros H. apply guarded_not_search. eapply Forall_impl; [|exact H].
  intros ev Hev. apply Hev.
Qed.

Lemma guarded_ready evs :
  Forall (fun ev => observe ev = None) evs -> guarded (Some READY) evs.
Proof.
  induction 1 as [|ev evs Hev _ IH]; [exact I|].
  split.
  - destruct ev; auto.
  - unfold update. rewrite Hev. exact IH.
Qed.

Section Unobserved.

Let blind (ev : Event) : Prop := observe ev = None.

Lemma print_results_blind results : emits blind (print_results results).
Proof. induction results as [|doc rest IH]; simpl; walk reflexivity. Qed.

Lemma vector_search_blind w : emits blind (vector_search w).
Proof.
  pose proof print_results_blind.
  unfold vector_search, generate_embedding. walk reflexivity.
Qed.

End Unobserved.

Lemma equals_eq x s : equals x s = true -> x = Some s.
Proof.
  destruct x as [y|]; cbn; [|discriminate].
  intros H. apply String.eqb_eq in H. congruence.
Qed.

(** A loop left by [break] has just observed READY. *)
Lemma monitor_ready_observed polls l last :
  completion (monitor polls l) = Normal tt ->
  track last (events (monitor polls l)) = Some READY.
Proof.
  revert last. induction polls as [|[listed|e] rest IH]; intros last.
  - discriminate.
  - destruct (terminal listed) eqn:Ht.
    + destruct listed as [|first others]; [discriminate|].
      destruct (equals (status first) "READY") eqn:Hr.
      * rewrite monitor_ready by assumption. intros _.
        apply equals_eq in Hr. unfold track. cbn. rewrite Hr. reflexivity.
      * cbn [terminal] in Ht. rewrite Hr in Ht.
        rewrite monitor_failed by assumption. discriminate.
    + rewrite monitor_waits by assumption. cbn [after completion events].
      intros H. rewrite track_app. apply IH, H.
  - rewrite monitor_raises. discriminate.
Qed.

Lemma monitor_raised polls l e :
  completion (monitor polls l) = Raised e -> In (Raises e) polls.
Proof.
  induction polls as [|[listed|e'] rest IH].
  - discriminate.
  - destruct (terminal listed) eqn:Ht.
    + destruct listed as [|first others]; [discriminate|].
      destruct (equals (status first) "READY") eqn:Hr.
      * rewrite monitor_ready by assumption. discriminate.
      * cbn [terminal] in Ht. rewrite Hr in Ht.
        rewrite monitor_failed by assumption. discriminate.
    + rewrite monitor_waits by assumption. cbn [after completion].
      intros H. right. apply IH, H.
  - rewrite monitor_raises. cbn. intros [= ->]. left. reflexivity.
Qed.

Lemma ensure_index_ready_observed w l last :
  creates_index w -> polls_not_tolerated w ->
  completion (ensure_index w l) = Normal tt ->
  track last (events (ensure_index w l)) = Some READY.
Proof.
  intros (listed & H & Hnot & Hcreate) Hpolls.
  rewrite ensure_index_spec. unfold index_attempt.
  rewrite H, Hnot, Hcreate, handled_after, after_after.
  destruct (completion (monitor (list_polls w) l)) as [[]| |e|] eqn:Hc.
  - rewrite (handled_normal _ _ Hc). intros _. cbn [after events].
    rewrite track_app. apply monitor_ready_observed, Hc.
  - rewrite (handled_returned _ Hc). cbn [after completion]. congruence.
  - apply monitor_raised in Hc as Hin. apply Hpolls in Hin.
    unfold handled. rewrite Hc. unfold tolerated in Hin.
    destruct (is_OperationFailure e); cbn [andb] in Hin.
    + rewrite Hin. cbn. discriminate.
    + cbn. rewrite Hc. discriminate.
  - rewrite (handled_running _ Hc). cbn [after completion]. congruence.
Qed.

(** C1, as the code has it: in a run that creates the index itself (the
    name is not in the first listing, the create call returns) and in which
    no poll raises an "already exists" failure, every aggregation is issued
    while the latest observation of the index is READY. *)
Theorem search_follows_ready_after_create conn w :
  creates_index w -> polls_not_tolerated w ->
  searches_only_when_ready (events (main_with w conn)).
Proof.
  intros Hcreates Hpolls. apply guarded_sound.
  main_cases conn w; cbn [events].
  - apply guarded_plain. repeat constructor.
  - apply guarded_app; [apply guarded_plain, opening_plain|].
    apply guarded_app; [|apply guarded_plain, closing_plain].
    rewrite steps_events.
    apply guarded_app;
      [apply guarded_not_search, ensure_index_not_search|].
    destruct (normal (completion (ensure_index w (connected conn)))) eqn:Hn;
      [|exact I].
    apply normal_unit in Hn.
    rewrite (ensure_index_ready_observed w _ _ Hcreates Hpolls Hn).
    apply guarded_app; [apply guarded_ready, vector_search_blind|].
    destruct (normal (completion (vector_search w (connected conn))));
      [|exact I].
    apply guarded_not_search, list_and_drop_not_search.
  - apply guarded_plain, Forall_app. split;
      [repeat constructor | apply closing_plain].
  - apply guarded_plain, Forall_app. split;
      [repeat constructor | apply report_plain].
Qed.

Lemma search_follows_ready_after_create_witness :
  searches_only_when_ready (events (main world_fresh)).
Proof.
  apply (search_follows_ready_after_create ATLAS_CONNECTION_STRING world_fresh).
  - exists []. repeat split; reflexivity.
  - intros e H. cbn in H. in_cases H; discriminate H.
Defined.

(** * Further properties of the program *)

(** ** [generate_embedding] *)

Lemma generate_embedding_spec w text client l :
  generate_embedding w text client l =
  after [Print (generating_for text); EmbeddingsCreate [text] deployment_name]
        (embedding_answer w l).
Proof.
  unfold generate_embedding, embedding_answer. rewrite bind_print.
  cbn [String.eqb deployment_name].
  destruct (embeddings_create w) as [[|first rest]|e].
  - erewrite try_except_caught;
      [| rewrite bind_call_returns; reflexivity | reflexivity ].
    reflexivity.
  - erewrite try_except_normal; [| rewrite bind_call_returns; reflexivity ].
    reflexivity.
  - destruct (is_Exception e) eqn:Hexn.
    + erewrite try_except_caught;
        [| rewrite bind_call_raises; reflexivity | rewrite Hexn; reflexivity ].
      reflexivity.
    + erewrite try_except_passed;
        [| rewrite bind_call_raises; reflexivity | rewrite Hexn; reflexivity ].
      reflexivity.
Qed.

(** X1: [generate_embedding] sends exactly one request, for the text it was
    given, and never lets an [Exception] out: it returns the first vector of
    the answer when there is one and [None] in every other case (the call
    raised, or the answer holds no data); only an exception outside
    [Exception] passes through.  It leaves [mongo_client] alone. *)
Theorem generate_embedding_contract w text client l :
  no_exception_escapes (completion (generate_embedding w text client l)) /\
  settled (completion (generate_embedding w text client l)) /\
  (forall v,
      completion (generate_embedding w text client l) = Normal (Some v)
      <-> exists rest, embeddings_create w = Returns (v :: rest)) /\
  calls (events (generate_embedding w text client l))
  = [EmbeddingsCreate [text] deployment_name] /\
  locals (generate_embedding w text client l) = l.
Proof.
  rewrite generate_embedding_spec. unfold embedding_answer.
  destruct (embeddings_create w) as [[|first rest]|e];
    [ | | destruct (is_Exception e) eqn:Hexn ];
    cbn; repeat split; auto; try discriminate.
  - intros (rest & H). discriminate H.
  - intros [= ->]. eauto.
  - intros (rest' & [= -> _]). reflexivity.
  - intros (rest & H). discriminate H.
  - intros (rest & H). discriminate H.
Qed.

(** ** Exceptions and the connection *)

Lemma outcome_no_exception c : no_exception_escapes (outcome c).
Proof.
  destruct c as [[]| |e|]; cbn; auto.
  destruct (is_Exception e) eqn:Hexn; cbn; auto.
Qed.

(** X2: no exception of class [Exception] leaves [main], whichever call
    raises it: the three handlers of lines 173-178 catch it; only an
    exception outside [Exception] (KeyboardInterrupt, SystemExit) gets
    out. *)
Theorem main_handles_every_exception conn w :
  no_exception_escapes (completion (main_with w conn)).
Proof.
  main_cases conn w; cbn [completion]; try apply outcome_no_exception.
  exact I.
Qed.

Lemma main_handles_every_exception_witness :
  no_exception_escapes (completion (main world_interrupted)) /\
  completion (main world_interrupted)
  = Raised (mkExn NotAnException "KeyboardInterrupt").
Proof.
  split; [|reflexivity].
  apply (main_handles_every_exception ATLAS_CONNECTION_STRING
           world_interrupted).
Defined.

(** X3: until both [MongoClient(...)] and the ping have returned, a run
    only prints: a listing, a create request, a prompt, an embedding
    request, an aggregation or a drop occurs only in a run that connects. *)
Theorem no_operation_before_ping conn w ev :
  In ev (events (main_with w conn)) ->
  operation ev = true ->
  connects conn w.
Proof.
  intros Hin Hop. revert Hin. unfold connects.
  main_cases conn w; cbn [events]; intros Hin.
  - exfalso. in_cases Hin; subst ev; discriminate Hop.
  - auto.
  - exfalso. unfold closing, report in Hin.
    destruct (is_Exception e); in_cases Hin; subst ev; discriminate Hop.
  - exfalso. unfold report in Hin.
    destruct (is_Exception e); in_cases Hin; subst ev; discriminate Hop.
Qed.

Lemma no_operation_before_ping_witness :
  connects ATLAS_CONNECTION_STRING world_fresh.
Proof.
  apply (no_operation_before_ping ATLAS_CONNECTION_STRING world_fresh
           (CreateSearchIndex search_index_model)).
  - vm_compute; repeat first [left; reflexivity | right].
  - reflexivity.
Defined.

Lemma closes_report c : closes (report c) = 0.
Proof.
  destruct c as [[]| |e|]; try reflexivity.
  cbn. destruct (is_Exception e); reflexivity.
Qed.

(** X4: the close of line 181 is the last thing a run does with the client:
    when a run closes it, the only event after the close is the closing
    line, and nothing before it is a close. *)
Theorem close_is_last conn w :
  closes (events (main_with w conn)) = 1 ->
  exists before,
    events (main_with w conn) = before ++ [Close; Print closed] /\
    closes before = 0.
Proof.
  main_cases conn w; cbn [events]; intros H.
  - discriminate H.
  - pose proof (closes_none _ (steps_no_close w (connected conn))) as Hs.
    unfold closing in *.
    destruct (completion (steps w (connected conn))) as [[]| |e'|] eqn:Hc;
      try (eexists; split;
           [ rewrite !app_assoc; reflexivity
           | rewrite !closes_app, Hs, closes_report; reflexivity ]).
    rewrite !closes_app, Hs in H. discriminate H.
  - unfold closing.
    exists ([Print banner; Print connecting; NewMongoClient conn; Ping]
              ++ report (Raised e)).
    split; [rewrite app_assoc; reflexivity|].
    rewrite closes_app, closes_report. reflexivity.
  - rewrite closes_app, closes_report in H. discriminate H.
Qed.

Lemma close_is_last_witness :
  exists before,
    events (main world_failed) = before ++ [Close; Print closed] /\
    closes before = 0.
Proof.
  apply (close_is_last ATLAS_CONNECTION_STRING world_failed).
  vm_compute. reflexivity.
Defined.

Section Inner.

Let inner (ev : Event) : Prop :=
  match ev with
  | NewMongoClient _ | Ping | Close => False
  | _ => True
  end.

Lemma monitor_inner polls : emits inner (monitor polls).
Proof. induction polls as [|r rest IH]; simpl; walk ltac:(exact I). Qed.

Lemma print_results_inner results : emits inner (print_results results).
Proof. induction results as [|doc rest IH]; simpl; walk ltac:(exact I). Qed.

Lemma print_indexes_inner listed : emits inner (print_indexes listed).
Proof. induction listed as [|idx rest IH]; simpl; walk ltac:(exact I). Qed.

Lemma steps_inner w : emits inner (steps w).
Proof.
  pose proof monitor_inner. pose proof print_results_inner.
  pose proof print_indexes_inner.
  unfold steps, ensure_index, vector_search, list_and_drop, generate_embedding.
  walk ltac:(exact I).
Qed.

End Inner.

(** X5: a run builds the client exactly when the connection string is
    neither empty nor holds the marker [<username>], and then with that very
    string. *)
Theorem client_built_unless_placeholder conn w uri :
  In (NewMongoClient uri) (events (main_with w conn)) <->
  (conn <> ""%string /\ contains "<username>" conn = false) /\ uri = conn.
Proof.
  assert (Hp : placeholder conn = false <->
               conn <> ""%string /\ contains "<username>" conn = false).
  { unfold placeholder. rewrite orb_false_iff, String.eqb_neq. reflexivity. }
  rewrite <- Hp. clear Hp.
  main_cases conn w; cbn [events].
  - split.
    + intros H. in_cases H; discriminate H.
    + intros [H _]. discriminate H.
  - split.
    + intros H. split; [reflexivity|].
      apply in_app_iff in H as [H|H];
        [| apply in_app_iff in H as [H|H] ].
      * in_cases H; try discriminate H. injection H as <-. reflexivity.
      * exfalso. pose proof (steps_inner w (connected conn)) as Hs.
        rewrite Forall_forall in Hs. apply (Hs _ H).
      * exfalso. unfold closing, report in H.
        destruct (completion (steps w (connected conn))) as [[]| |e'|];
          try destruct (is_Exception e'); in_cases H; discriminate H.
    + intros [_ ->]. right. right. left. reflexivity.
  - split.
    + intros H. split; [reflexivity|]. unfold closing, report in H.
      destruct (is_Exception e); in_cases H; try discriminate H;
        injection H as <-; reflexivity.
    + intros [_ ->]. right. right. left. reflexivity.
  - split.
    + intros H. split; [reflexivity|]. unfold report in H.
      destruct (is_Exception e); in_cases H; try discriminate H;
        injection H as <-; reflexivity.
    + intros [_ ->]. right. right. left. reflexivity.
Qed.

(** ** The result lines *)


Lemma print_results_spec results l :
  print_results results l =
  mkOut (shown results) l
        match first_missing results with
        | None => Normal tt
        | Some key => Raised (KeyError key)
        end.
Proof.
  induction results as [|doc rest IH]; [reflexivity|].
  cbn [print_results shown first_missing]. unfold missing_key.
  destruct (title doc) as [t|]; [|reflexivity].
  destruct (score doc) as [s|]; [|reflexivity].
  destruct (plot doc) as [p|]; [|reflexivity].
  rewrite bind_emit, IH. reflexivity.
Qed.



(** ** Step 4 in full *)

Lemma vector_search_spec w l :
  vector_search w l =
  match input_search w with
  | Raises e => mkOut [Input prompt_search] l (Raised e)
  | Returns typed =>
      if String.eqb (lower typed) "yes" then
        after [Input prompt_search; Print initializing]
              (caught (search_attempt w l))
      else mkOut [Input prompt_search] l (Normal tt)
  end.
Proof.
  unfold vector_search. destruct (input_search w) as [typed|e].
  2:{ rewrite bind_call_raises. reflexivity. }
  rewrite bind_call_returns.
  destruct (String.eqb (lower typed) "yes"); [|reflexivity].
  rewrite bind_print, after_after. f_equal.
  match goal with
  | |- try_except ?m ?h l = _ =>
      assert (Hbody : m l = search_attempt w l);
      [| unfold try_except, caught; rewrite Hbody;
         destruct (search_attempt w l) as [evs lo [[]| |e|]];
         cbn [completion events locals]; try reflexivity;
         destruct (is_Exception e); reflexivity ]
  end.
  unfold search_attempt. fold azure_client.
  destruct (AzureOpenAI_new w) as [[]|e].
  2:{ rewrite bind_call_raises. reflexivity. }
  rewrite bind_call_returns.
  pose proof (generate_embedding_spec w query_text azure_client l) as Hg.
  unfold embedding_answer in Hg. fold generating in Hg.
  destruct (embeddings_create w) as [[|[|x v] rest]|e].
  - rewrite (bind_normal _ _ _ _ _ _ Hg), after_after. reflexivity.
  - rewrite (bind_normal _ _ _ _ _ _ Hg), after_after. reflexivity.
  - rewrite (bind_normal _ _ _ _ _ _ Hg), after_after. cbn [truthy].
    unfold query_outcome. rewrite bind_print.
    destruct (aggregate w) as [results|e].
    + rewrite bind_call_returns, bind_print, !after_after. reflexivity.
    + rewrite bind_call_raises. reflexivity.
  - destruct (is_Exception e).
    + rewrite (bind_normal _ _ _ _ _ _ Hg), after_after. reflexivity.
    + rewrite (bind_raised _ _ _ _ _ _ Hg). reflexivity.
Qed.

Lemma search_attempt_settled w l : settled (completion (search_attempt w l)).
Proof.
  unfold search_attempt, query_outcome.
  destruct (AzureOpenAI_new w) as [[]|e]; [|exact I].
  destruct (embeddings_create w) as [[|[|x v] rest]|e]; try exact I.
  - destruct (aggregate w) as [results|e]; [|exact I].
    rewrite print_results_spec. cbn.
    destruct (first_missing results); exact I.
  - destruct (is_Exception e); exact I.
Qed.

Lemma caught_calm o :
  settled (completion o) ->
  settled (completion (caught o)) /\
  no_exception_escapes (completion (caught o)).
Proof.
  unfold caught. destruct (completion o) as [[]| |e|] eqn:Hc; cbn;
    try tauto.
  - rewrite Hc. cbn. tauto.
  - destruct (is_Exception e) eqn:Hexn; cbn; [tauto|].
    rewrite Hc. cbn. tauto.
Qed.

Lemma vector_search_calm w l typed :
  input_search w = Returns typed ->
  completion (vector_search w l) = Normal tt \/
  exists e, completion (vector_search w l) = Raised e /\
            is_Exception e = false.
Proof.
  intros H. rewrite vector_search_spec, H.
  destruct (String.eqb (lower typed) "yes"); [|left; reflexivity].
  cbn [after completion].
  destruct (caught_calm _ (search_attempt_settled w l)) as [Hs He].
  destruct (completion (caught (search_attempt w l))) as [[]| |e|];
    cbn in *; try tauto.
  right. eauto.
Qed.

(** X7: once the operator has answered the search prompt, nothing that goes
    wrong in step 4 (building the client, the embedding, the aggregation, a
    result document without a key) stops the run: it reaches the index
    listing of step 5, unless an exception outside [Exception] interrupts
    it, which then leaves [main]. *)
Theorem search_failures_are_contained conn w typed :
  connects conn w ->
  completion (ensure_index w (connected conn)) = Normal tt ->
  input_search w = Returns typed ->
  In (Print listing) (events (main_with w conn)) \/
  exists e, completion (main_with w conn) = Raised e /\
            is_Exception e = false.
Proof.
  intros Hc Hn Hinput.
  destruct (vector_search_calm w (connected conn) typed Hinput)
    as [Hs|(e & Hs & Hexn)].
  - left. apply drop_event_iff; [reflexivity|].
    split; [exact Hc|]. split; [exact Hn|]. split; [exact Hs|].
    destruct (list_and_drop_starts w (connected conn)) as [rest ->].
    left. reflexivity.
  - right. exists e. split; [|exact Hexn].
    destruct Hc as (Hp & Hclient & Hping).
    rewrite (main_connected conn w Hp Hclient Hping). cbn [completion].
    rewrite steps_completion, Hn, Hs. cbn. rewrite Hexn. reflexivity.
Qed.

Lemma search_failures_are_contained_witness :
  In (Print listing) (events (main world_drop_refused)) \/
  exists e, completion (main world_drop_refused) = Raised e /\
            is_Exception e = false.
Proof.
  apply (search_failures_are_contained ATLAS_CONNECTION_STRING
           world_drop_refused "yes"%string).
  - repeat split; reflexivity.
  - vm_compute. reflexivity.
  - reflexivity.
Defined.



(** X9: an empty vector from the embedding service is not an error to the
    program and not a query either: step 4 ends after the embedding request,
    with no error line and no aggregation. *)
Theorem empty_vector_skips_search w l typed rest :
  input_search w = Returns typed ->
  String.eqb (lower typed) "yes" = true ->
  AzureOpenAI_new w = Returns tt ->
  embeddings_create w = Returns ([] :: rest) ->
  vector_search w l =
  mkOut [ Input prompt_search; Print initializing;
          NewAzureOpenAI azure_client; Print generating;
          EmbeddingsCreate [query_text] deployment_name ]
        l (Normal tt).
Proof.
  intros H Hyes Hnew Hemb.
  rewrite vector_search_spec, H, Hyes. unfold search_attempt.
  rewrite Hnew, Hemb. reflexivity.
Qed.

Lemma empty_vector_skips_search_witness :
  vector_search world_empty_vector start =
  mkOut [ Input prompt_search; Print initializing;
          NewAzureOpenAI azure_client; Print generating;
          EmbeddingsCreate [query_text] deployment_name ]
        start (Normal tt).
Proof.
  apply (empty_vector_skips_search world_empty_vector start "yes"%string []);
    reflexivity.
Defined.

(** ** The drop *)

(** X10: when a run asks the store to drop the index, it drops the index
    [INDEX_NAME] and that is its last operation: if the call returns, the
    success line and the release of the connection follow; if it raises, the
    handlers of [main] report it in place of the success line, and the
    connection is released all the same. *)
Theorem drop_outcome conn w :
  In (DropSearchIndex INDEX_NAME) (events (main_with w conn)) ->
  exists before,
    events (main_with w conn) =
    before
      ++ DropSearchIndex INDEX_NAME
      :: match drop_search_index w with
         | Returns _ => [Print dropped]
         | Raises e => report (Raised e)
         end
      ++ [Close; Print closed].
Proof.
  intros Hin.
  apply drop_event_iff in Hin as (Hc & Hn & Hs & Hin); [|reflexivity].
  destruct Hc as (Hp & Hclient & Hping).
  rewrite (main_connected conn w Hp Hclient Hping). cbn [events].
  rewrite steps_events, steps_completion, Hn, Hs. cbn [normal].
  rewrite list_and_drop_spec in *.
  destruct (list_last w) as [listed|e].
  2:{ exfalso. in_cases Hin; discriminate Hin. }
  unfold drop_answer in *.
  destruct (input_drop w) as [typed|e].
  2:{ exfalso. cbn [after events] in Hin. in_cases Hin; try discriminate Hin.
      apply index_line_not_drop in Hin. discriminate Hin. }
  destruct (String.eqb (lower typed) "yes").
  2:{ exfalso. cbn [after events] in Hin. in_cases Hin; try discriminate Hin.
      apply index_line_not_drop in Hin. discriminate Hin. }
  clear Hin.
  exists (opening conn
            ++ events (ensure_index w (connected conn))
            ++ events (vector_search w (connected conn))
            ++ (Print listing :: ListSearchIndexes None (Returns listed)
                  :: map index_line listed
                  ++ [Input prompt_drop; Print dropping])).
  destruct (drop_search_index w) as [u|e];
    cbn [after events completion closing report app];
    repeat first [rewrite <- app_assoc | progress cbn [app]]; reflexivity.
Qed.

Lemma drop_outcome_witness :
  exists before,
    events (main world_drop_refused) =
    before
      ++ DropSearchIndex INDEX_NAME
      :: report (Raised (mkExn OperationFailure "index not found"))
      ++ [Close; Print closed].
Proof.
  apply (drop_outcome ATLAS_CONNECTION_STRING world_drop_refused).
  vm_compute; repeat first [left; reflexivity | right].
Defined.

(** ** A poll that raises *)

Lemma monitor_poll_raises waited e rest l :
  Forall (fun listed => terminal listed = false) waited ->
  completion (monitor (map Returns waited ++ Raises e :: rest) l) = Raised e.
Proof.
  induction 1 as [|listed waited H _ IH].
  - cbn [map app]. rewrite monitor_raises. reflexivity.
  - cbn [map app]. rewrite monitor_waits by assumption. exact IH.
Qed.

(** X11: an exception raised by a poll of the loop is treated like one of
    the create call: an OperationFailure that mentions "already exists" is
    swallowed and step 3 is left normally, any other OperationFailure makes
    [main] return, and any other exception leaves the step. *)
Theorem poll_failure_outcome w l waited e rest :
  creates_index w ->
  list_polls w = map Returns waited ++ Raises e :: rest ->
  Forall (fun listed => terminal listed = false) waited ->
  completion (ensure_index w l) =
  if tolerated e then Normal tt
  else if is_OperationFailure e then Returned
  else Raised e.
Proof.
  intros (listed & H & Hnot & Hcreate) Hpolls Hwaited.
  rewrite ensure_index_spec. unfold index_attempt.
  rewrite H, Hnot, Hcreate, handled_after. cbn [after completion].
  unfold handled, tolerated.
  rewrite Hpolls, (monitor_poll_raises waited e rest l Hwaited).
  destruct (is_OperationFailure e); cbn [andb].
  - destruct (contains "already exists" (exn_str e)); reflexivity.
  - rewrite (monitor_poll_raises waited e rest l Hwaited). reflexivity.
Qed.

Lemma poll_failure_outcome_witness :
  completion (ensure_index world_poll_timeout start) = Returned.
Proof.
  apply (poll_failure_outcome world_poll_timeout start
           [[]; [index_doc "PENDING"]]
           (mkExn OperationFailure "operation exceeded time limit") []).
  - exists []. repeat split; reflexivity.
  - reflexivity.
  - repeat constructor.
Defined.

(** ** The test for the tolerated failure *)




(** ** No operation is issued twice *)

Lemma count_app f evs evs' : count f (evs ++ evs') = count f evs + count f evs'.
Proof. unfold count. rewrite filter_app, List.length_app. reflexivity. Qed.

Lemma count_none (f : Event -> bool) evs :
  Forall (fun ev => f ev = false) evs -> count f evs = 0.
Proof.
  induction 1 as [|ev evs H _ IH]; [reflexivity|].
  unfold count in *. cbn [filter]. rewrite H. exact IH.
Qed.

Lemma count_other (f g : Event -> bool) evs :
  (forall ev, f ev = true -> g ev = true) ->
  Forall (fun ev => g ev = false) evs -> count f evs = 0.
Proof.
  intros Hfg H. apply count_none. eapply Forall_impl; [|exact H].
  intros ev Hg. destruct (f ev) eqn:Hf; [|reflexivity].
  apply Hfg in Hf. congruence.
Qed.

Lemma count_plain (f : Event -> bool) evs :
  (forall ev, f ev = true ->
              of_search_step ev = true \/ of_drop_step ev = true) ->
  Forall plain evs -> count f evs = 0.
Proof.
  intros Hf H. apply count_none. eapply Forall_impl; [|exact H].
  intros ev (_ & Hs & Hd). destruct (f ev) eqn:Hev; [|reflexivity].
  destruct (Hf ev Hev); congruence.
Qed.

(** What a run counts of [f] is what its steps count. *)
Lemma count_main (f : Event -> bool) conn w :
  (forall ev, f ev = true ->
              of_search_step ev = true \/ of_drop_step ev = true) ->
  count f (events (main_with w conn))
  <= count f (events (ensure_index w (connected conn)))
     + count f (events (vector_search w (connected conn)))
     + count f (events (list_and_drop w (connected conn))).
Proof.
  intros Hf. main_cases conn w; cbn [events].
  - rewrite (count_plain f) by (auto; repeat constructor). lia.
  - rewrite !count_app, (count_plain f _ Hf (opening_plain conn)),
      (count_plain f _ Hf (closing_plain _)), steps_events, count_app.
    destruct (normal (completion (ensure_index w (connected conn))));
      [|cbn; lia].
    rewrite count_app.
    destruct (normal (completion (vector_search w (connected conn))));
      cbn; lia.
  - match goal with
    | |- count f ?evs <= _ => rewrite (count_plain f evs Hf)
    end; [lia|].
    apply Forall_app. split; [repeat constructor | apply closing_plain].
  - match goal with
    | |- count f ?evs <= _ => rewrite (count_plain f evs Hf)
    end; [lia|].
    apply Forall_app. split; [repeat constructor | apply report_plain].
Qed.

Lemma count_shown f results :
  (forall t s p, f (PrintResult t s p) = false) ->
  count f (shown results) = 0.
Proof.
  intros Hf. apply count_none.
  induction results as [|doc rest IH]; [constructor|].
  cbn [shown]. destruct (title doc), (score doc), (plot doc);
    try constructor; auto.
Qed.

Lemma count_caught f o :
  (forall line, f (Print line) = false) ->
  count f (events (caught o)) = count f (events o).
Proof.
  intros Hf. unfold caught. destruct (completion o) as [[]| |e|];
    try reflexivity.
  destruct (is_Exception e); [|reflexivity].
  cbn [events]. rewrite count_app. unfold count at 2. cbn [filter].
  rewrite Hf. cbn. lia.
Qed.

Lemma count_vector_search f w l :
  (forall line, f (Print line) = false) ->
  (forall t s p, f (PrintResult t s p) = false) ->
  (forall prompt, f (Input prompt) = false) ->
  (forall client, f (NewAzureOpenAI client) = false) ->
  count f (events (vector_search w l))
  <= (if f (EmbeddingsCreate [query_text] deployment_name) then 1 else 0)
     + (if existsb f
             match embeddings_create w with
             | Returns (v :: _) => [Aggregate (pipeline v)]
             | _ => []
             end
        then 1 else 0).
Proof.
  intros Hprint Hresult Hinput Hclient.
  rewrite vector_search_spec.
  destruct (input_search w) as [typed|e];
    [ destruct (String.eqb (lower typed) "yes") |];
    cbn [after events]; rewrite ?count_app;
    try (unfold count; cbn [filter app]; rewrite ?Hinput, ?Hprint;
         cbn; lia).
  rewrite (count_caught f _ Hprint). unfold search_attempt, query_outcome.
  unfold count at 1. cbn [filter]. rewrite Hinput, Hprint. cbn [List.length].
  destruct (AzureOpenAI_new w) as [[]|e].
  2:{ unfold count. cbn [events filter]. rewrite Hclient. cbn. lia. }
  cbn [after events]. rewrite count_app.
  unfold count at 1. cbn [filter]. rewrite Hclient, Hprint.
  destruct (embeddings_create w) as [[|[|x v] rest]|e].
  - unfold count. cbn [events filter]. rewrite Hprint.
    destruct (f (EmbeddingsCreate _ _)); cbn; lia.
  - unfold count. cbn [events filter].
    destruct (f (EmbeddingsCreate _ _)); cbn; lia.
  - cbn [after events existsb]. rewrite count_app.
    assert (Htail : count f (events match aggregate w with
                                    | Returns results =>
                                        after [Print results_header]
                                              (print_results results l)
                                    | Raises e => mkOut [] l (Raised e)
                                    end) = 0).
    { destruct (aggregate w) as [results|e]; [|reflexivity].
      cbn [after events]. rewrite count_app, print_results_spec.
      cbn [events]. rewrite (count_shown f _ Hresult).
      unfold count. cbn [filter]. rewrite Hprint. reflexivity. }
    rewrite Htail. unfold count. cbn [filter]. rewrite Hprint.
    destruct (f (EmbeddingsCreate _ _)), (f (Aggregate _)); cbn; lia.
  - destruct (is_Exception e); unfold count; cbn [events filter];
      rewrite ?Hprint; destruct (f (EmbeddingsCreate _ _)); cbn; lia.
Qed.

Lemma count_drop_list_and_drop w l :
  count is_Drop (events (list_and_drop w l)) <= 1.
Proof.
  rewrite list_and_drop_spec. destruct (list_last w) as [listed|e];
    [|cbn; lia].
  cbn [after events]. rewrite !count_app.
  assert (Hlines : count is_Drop
                     (Print listing :: ListSearchIndexes None (Returns listed)
                        :: map index_line listed ++ [Input prompt_drop]) = 0).
  { apply count_none. repeat constructor. apply Forall_app. split.
    - apply Forall_forall. intros ev Hev.
      apply in_map_iff in Hev as (idx & <- & _). reflexivity.
    - repeat constructor. }
  rewrite Hlines. unfold drop_answer.
  destruct (input_drop w) as [typed|e]; [|cbn; lia].
  destruct (String.eqb (lower typed) "yes"); [|cbn; lia].
  destruct (drop_search_index w); cbn; lia.
Qed.

(** X13: a run sends at most one embedding request, at most one
    aggregation and at most one drop request, whatever the collaborators
    answer. *)
Theorem operations_at_most_once conn w :
  count is_EmbeddingsCreate (events (main_with w conn)) <= 1 /\
  count is_Aggregate (events (main_with w conn)) <= 1 /\
  count is_Drop (events (main_with w conn)) <= 1.
Proof.
  assert (Hsearch : forall f : Event -> bool,
             (forall ev, f ev = true -> of_search_step ev = true) ->
             count f (events (main_with w conn))
             <= count f (events (vector_search w (connected conn)))).
  { intros f Hf.
    pose proof (count_main f conn w (fun ev H => or_introl (Hf ev H))) as H.
    rewrite (count_other f of_search_step _ Hf
               (ensure_index_not_search w (connected conn))) in H.
    rewrite (count_other f of_search_step _ Hf
               (list_and_drop_not_search w (connected conn))) in H.
    lia. }
  split; [|split].
  - etransitivity; [apply Hsearch; intros [] H; (reflexivity || discriminate H)|].
    etransitivity;
      [apply count_vector_search; intros; reflexivity|].
    cbn [is_EmbeddingsCreate].
    destruct (embeddings_create w) as [[|v rest]|e]; cbn; lia.
  - etransitivity; [apply Hsearch; intros [] H; (reflexivity || discriminate H)|].
    etransitivity;
      [apply count_vector_search; intros; reflexivity|].
    cbn [is_Aggregate].
    destruct (embeddings_create w) as [[|v rest]|e]; cbn; lia.
  - pose proof (count_main is_Drop conn w) as H.
    assert (Hf : forall ev, is_Drop ev = true -> of_drop_step ev = true)
      by (intros [] Hev; (reflexivity || discriminate Hev)).
    rewrite (count_other is_Drop of_drop_step _ Hf
               (ensure_index_not_drop w (connected conn))) in H.
    rewrite (count_other is_Drop of_drop_step _ Hf
               (vector_search_not_drop w (connected conn))) in H.
    pose proof (count_drop_list_and_drop w (connected conn)).
    specialize (H (fun ev Hev => or_intror (Hf ev Hev))). lia.
Qed.

(** ** The listing of step 5 *)

(** X14: when the listing of step 5 returns, the run prints one line per
    index, in the order of the listing, with [N/A] for an index that
    reports no status, and then always asks whether to drop the index. *)
Theorem listing_shows_every_index w l listed :
  list_last w = Returns listed ->
  exists rest,
    events (list_and_drop w l) =
    Print listing :: ListSearchIndexes None (Returns listed)
      :: map (fun idx =>
                Print ("  - Name: " ++ name idx ++ ", Status: "
                         ++ match status idx with
                            | Some reported => reported
                            | None => "N/A"
                            end)%string)
             listed
      ++ Input prompt_drop :: rest.
Proof.
  intros H. rewrite list_and_drop_spec, H. cbn [after events app].
  exists (events (drop_answer w l)). rewrite <- app_assoc. reflexivity.
Qed.

Lemma listing_shows_every_index_witness :
  exists rest,
    events (list_and_drop world_fresh start) =
    [ Print listing; ListSearchIndexes None (Returns [index_doc "READY"]);
      Print "  - Name: vector_index_plot, Status: READY";
      Input prompt_drop ] ++ rest.
Proof.
  apply (listing_shows_every_index world_fresh start [index_doc "READY"]).
  reflexivity.
Defined.

(** X15: a failure of the listing of step 5 is not contained the way the
    failures of step 4 are: the run asks no drop question and drops nothing;
    the listing call is its last operation, followed only by the report of
    the handlers and the release of the connection. *)
Theorem final_listing_failure conn w e :
  connects conn w ->
  completion (ensure_index w (connected conn)) = Normal tt ->
  completion (vector_search w (connected conn)) = Normal tt ->
  list_last w = Raises e ->
  (exists before,
      events (main_with w conn) =
      before ++ ListSearchIndexes None (Raises e)
        :: report (Raised e) ++ [Close; Print closed]) /\
  ~ In (Input prompt_drop) (events (main_with w conn)) /\
  ~ In (DropSearchIndex INDEX_NAME) (events (main_with w conn)).
Proof.
  intros Hc Hn Hs Hlast.
  assert (Hld : list_and_drop w (connected conn) =
                mkOut [Print listing; ListSearchIndexes None (Raises e)]
                      (connected conn) (Raised e))
    by (rewrite list_and_drop_spec, Hlast; reflexivity).
  split; [|split].
  - destruct Hc as (Hp & Hclient & Hping).
    rewrite (main_connected conn w Hp Hclient Hping). cbn [events].
    rewrite steps_events, steps_completion, Hn, Hs, Hld.
    cbn [normal events completion closing].
    exists (opening conn
              ++ events (ensure_index w (connected conn))
              ++ events (vector_search w (connected conn))
              ++ [Print listing]).
    repeat first [rewrite <- app_assoc | progress cbn [app]]. reflexivity.
  - intros H. apply drop_event_iff in H as (_ & _ & _ & H); [|reflexivity].
    rewrite Hld in H. in_cases H; discriminate H.
  - intros H. apply drop_event_iff in H as (_ & _ & _ & H); [|reflexivity].
    rewrite Hld in H. in_cases H; discriminate H.
Qed.

Lemma final_listing_failure_witness :
  (exists before,
      events (main world_listing_fails) =
      before
        ++ ListSearchIndexes None
             (Raises (mkExn OperationFailure "not authorized"))
        :: report (Raised (mkExn OperationFailure "not authorized"))
        ++ [Close; Print closed]) /\
  ~ In (Input prompt_drop) (events (main world_listing_fails)) /\
  ~ In (DropSearchIndex INDEX_NAME) (events (main world_listing_fails)).
Proof.
  apply (final_listing_failure ATLAS_CONNECTION_STRING world_listing_fails
           (mkExn OperationFailure "not authorized")).
  - repeat split; reflexivity.
  - vm_compute. reflexivity.
  - vm_compute. reflexivity.
  - reflexivity.
Defined.
